(** * Guitar chord analysis: pitch model, fretboard model, voicing analyzer

    A shallow embedding of the helper functions of [main.py]
    ([parse_note], [note_to_semitone], [semitone_to_note],
    [get_note_from_string_fret], [get_chord_notes_from_voicing],
    [determine_root_note], [get_fret_positions]) and of the methods of its
    class [GuitarChordAnalyzer], together with the Python primitives they
    rely on, the properties of the specification that concern them, and
    further properties read off the code.

    Modelling conventions.
    - A Python [str] is a [string]: one [ascii] per character, read as a
      code point below 256.  Characters beyond that range are outside the
      model.
    - A Python [int] is a [Z].  The interpreter's optional cap on the length
      of decimal conversions is not modelled.
    - A raising call returns [Raise e]; a returning call returns [Ok v].
    - A fret as it is found in a voicing is a dynamically typed value: an
      [int] or a [str] (a one-character [str] when the voicing itself is a
      [str] that is iterated over). *)

From Stdlib Require Import ZArith Ascii.
From stdpp Require Import base tactics numbers list strings pretty sorting gmap.

Local Open Scope Z_scope.

(** ** Exceptions and fallible computations *)

Inductive exn : Set :=
  | ValueError
  | IndexError.

Inductive result (A : Type) : Type :=
  | Ok (a : A)
  | Raise (e : exn).
Arguments Ok {A} a.
Arguments Raise {A} e.

Global Instance result_ret : MRet result := λ A, @Ok A.
Global Instance result_bind : MBind result := λ A B k m,
  match m with
  | Ok a => k a
  | Raise e => Raise e
  end.

Definition raises {A} (m : result A) : Prop := ∃ e, m = Raise e.

(** ** Python primitives *)

Module Py.

(** Dynamically typed values that occur as frets. *)
Inductive value : Set :=
  | Int (z : Z)
  | Str (s : string).

Global Instance value_eq_dec : EqDecision value.
Proof. solve_decision. Defined.

(** [a == b] on the values above: an [int] never equals a [str]. *)
Definition eqb (a b : value) : bool := bool_decide (a = b).

Definition code (c : ascii) : N := N_of_ascii c.

(** [ch.isdigit()]: the decimal digits and the three superscript digits
    U+00B2, U+00B3 and U+00B9. *)
Definition isdigit (c : ascii) : bool :=
  ((48 <=? code c) && (code c <=? 57) ||
   (code c =? 178) || (code c =? 179) || (code c =? 185))%N.

(** The value [int] gives to a character: decimal digits only. *)
Definition digit_value (c : ascii) : option Z :=
  if ((48 <=? code c) && (code c <=? 57))%N
  then Some (Z.of_N (code c) - 48) else None.

(** White space as [int] sees it: tab, line feed, vertical tab, form feed,
    carriage return, space, and the two non-ASCII blanks U+0085, U+00A0. *)
Definition isspace (c : ascii) : bool :=
  ((9 <=? code c) && (code c <=? 13) ||
   (code c =? 32) || (code c =? 133) || (code c =? 160))%N.

(** What the scanner of [int] has just read. *)
Inductive prev : Set := PNone | PDigit | PUnderscore.

(** The digit part of an integer literal: digits, with single underscores
    allowed between two digits.  Returns the value read and the text left
    over; [None] for a misplaced underscore or an empty digit part. *)
Fixpoint scan_digits (s : string) (acc : Z) (p : prev) : option (Z * string) :=
  let stop :=
    match p with
    | PDigit => Some (acc, s)
    | _ => None
    end in
  match s with
  | EmptyString => stop
  | String c rest =>
      match digit_value c with
      | Some d => scan_digits rest (10 * acc + d) PDigit
      | None =>
          if Ascii.eqb c "_"
          then match p with
               | PDigit => scan_digits rest acc PUnderscore
               | _ => None
               end
          else stop
      end
  end.

Fixpoint skip_spaces (s : string) : string :=
  match s with
  | String c rest => if isspace c then skip_spaces rest else s
  | EmptyString => s
  end.

(** [int(s)] for a [str] in base ten: blanks, an optional sign, the digit
    part, blanks, end of text. *)
Definition int_of_str (s : string) : result Z :=
  let s1 := skip_spaces s in
  let '(sign, s2) :=
    match s1 with
    | String "+" rest => (1, rest)
    | String "-" rest => (-1, rest)
    | _ => (1, s1)
    end in
  match scan_digits s2 0 PNone with
  | Some (n, s3) =>
      match skip_spaces s3 with
      | EmptyString => Ok (sign * n)
      | _ => Raise ValueError
      end
  | None => Raise ValueError
  end.

(** [int(v)]. *)
Definition int (v : value) : result Z :=
  match v with
  | Int z => Ok z
  | Str s => int_of_str s
  end.

(** [str(z)], also what an f-string writes for an [int]. *)
Definition str_of_int (z : Z) : string := pretty z.

(** [a % b] and [a // b] for a positive [b]: the remainder is never
    negative and the quotient is rounded down. *)
Definition mod_ (a b : Z) : Z := a `mod` b.
Definition floordiv (a b : Z) : Z := a `div` b.

(** [l[i]]: a negative index counts from the end. *)
Definition getitem {A} (l : list A) (i : Z) : result A :=
  let n := Z.of_nat (length l) in
  let j := if i <? 0 then i + n else i in
  if (0 <=? j) && (j <? n)
  then match l !! Z.to_nat j with
       | Some x => Ok x
       | None => Raise IndexError
       end
  else Raise IndexError.

(** [l.index(x)]: the position of the first element equal to [x]. *)
Fixpoint index (l : list string) (x : string) : result Z :=
  match l with
  | [] => Raise ValueError
  | y :: l' => if String.eqb y x then Ok 0
               else i ← index l' x; Ok (i + 1)
  end.

(** [s[:i]] and [s[i:]] for [0 <= i]. *)
Fixpoint slice_to (i : nat) (s : string) : string :=
  match i, s with
  | S i', String c rest => String c (slice_to i' rest)
  | _, _ => EmptyString
  end.
Fixpoint slice_from (i : nat) (s : string) : string :=
  match i, s with
  | S i', String _ rest => slice_from i' rest
  | _, _ => s
  end.

(** [s[:-1]]: the text without its last character. *)
Fixpoint drop_last (s : string) : string :=
  match s with
  | EmptyString => EmptyString
  | String _ EmptyString => EmptyString
  | String c rest => String c (drop_last rest)
  end.

(** Truth value of a [str] or [None]. *)
Definition truthy (o : option string) : bool :=
  match o with
  | Some (String _ _) => true
  | _ => false
  end.

(** The characters of a [str], as a loop over it yields them. *)
Fixpoint chars (s : string) : list value :=
  match s with
  | EmptyString => []
  | String c rest => Str (String c EmptyString) :: chars rest
  end.

(** [sorted(set(l))] for a list of [str]: duplicates collapse and the
    result ascends in the order of [str], which compares code points
    lexicographically. *)
Definition sorted_set (l : list string) : list string :=
  merge_sort String.le (remove_dups l).

End Py.

(** ** Configuration *)

Definition STRINGS : list string := ["E2"; "A2"; "D3"; "G3"; "B3"; "E4"].
Definition NOTE_ORDER : list string :=
  ["C"; "C#"; "D"; "D#"; "E"; "F"; "F#"; "G"; "G#"; "A"; "A#"; "B"].
Definition MAX_FRET : Z := 12.

(** ** Pitch model *)

(** The position of the first character for which [isdigit] holds. *)
Fixpoint first_digit (note : string) : option nat :=
  match note with
  | EmptyString => None
  | String ch rest =>
      if Py.isdigit ch then Some 0%nat else S <$> first_digit rest
  end.

Definition parse_note (note : string) : result (string * Z) :=
  match first_digit note with
  | Some i =>
      octave ← Py.int_of_str (Py.slice_from i note);
      Ok (Py.slice_to i note, octave)
  | None => Raise ValueError
  end.

Definition note_to_semitone (note : string) : result Z :=
  '(name, octave) ← parse_note note;
  i ← Py.index NOTE_ORDER name;
  Ok (i + 12 * octave).

Definition semitone_to_note (semitone : Z) : result string :=
  name ← Py.getitem NOTE_ORDER (Py.mod_ semitone 12);
  Ok (name +:+ Py.str_of_int (Py.floordiv semitone 12)).


(** ** Fretboard model *)

(** The marker of a muted string. *)
Definition MUTED : Py.value := Py.Str "X".

Definition get_note_from_string_fret (base_note : string) (fret : Py.value)
  : result (option string) :=
  if Py.eqb fret MUTED then Ok None
  else
    base ← note_to_semitone base_note;
    f ← Py.int fret;
    note ← semitone_to_note (base + f);
    Ok (Some note).

(** The loop of [get_fret_positions] over the frets still to visit. *)
Fixpoint scan_frets (base_semitone : Z) (target_notes : gset string)
    (frets : list Z) (positions : list Py.value) : result (list Py.value) :=
  match frets with
  | [] => Ok positions
  | fret :: rest =>
      note ← semitone_to_note (base_semitone + fret);
      scan_frets base_semitone target_notes rest
        (if bool_decide (Py.drop_last note ∈ target_notes)
         then positions ++ [Py.Int fret] else positions)
  end.

Definition get_fret_positions (string_note : string) (target_notes : gset string)
  : result (list Py.value) :=
  base_semitone ← note_to_semitone string_note;
  positions ← scan_frets base_semitone target_notes (seqZ 0 (MAX_FRET + 1)) [];
  Ok (positions ++ [MUTED]).

(** ** Voicing analyzer *)

(** The loop of [get_chord_notes_from_voicing] over the pairs that
    [zip(STRINGS, voicing)] yields. *)
Fixpoint collect_notes (pairs : list (string * Py.value)) (notes : list string)
  : result (list string) :=
  match pairs with
  | [] => Ok notes
  | (string_note, fret) :: rest =>
      note ← get_note_from_string_fret string_note fret;
      collect_notes rest
        (match note with
         | Some (String _ _ as n) => notes ++ [Py.drop_last n]
         | _ => notes
         end)
  end.

Definition get_chord_notes_from_voicing (voicing : list Py.value)
  : result (list string) :=
  notes ← collect_notes (zip STRINGS voicing) [];
  Ok (Py.sorted_set notes).

(** [note[:-1] if note else None]. *)
Definition pitch_class_or_none (note : option string) : option string :=
  if Py.truthy note then Py.drop_last <$> note else None.

(** The first loop of [determine_root_note]: [Some r] when the loop returns
    (or raises) [r], [None] when it runs to its end. *)
Fixpoint open_string_root (pairs : list (string * Py.value))
  : option (result (option string)) :=
  match pairs with
  | [] => None
  | (string_note, fret) :: rest =>
      if Py.eqb fret (Py.Int 0)
      then Some (note ← get_note_from_string_fret string_note fret;
                 Ok (pitch_class_or_none note))
      else open_string_root rest
  end.

(** The second loop of [determine_root_note]. *)
Fixpoint first_sounding_root (pairs : list (string * Py.value))
  : option (result (option string)) :=
  match pairs with
  | [] => None
  | (string_note, fret) :: rest =>
      if negb (Py.eqb fret MUTED)
      then Some (note ← get_note_from_string_fret string_note fret;
                 Ok (pitch_class_or_none note))
      else first_sounding_root rest
  end.

Definition determine_root_note (voicing : list Py.value)
  : result (option string) :=
  match open_string_root (zip STRINGS voicing) with
  | Some r => r
  | None =>
      match first_sounding_root (zip STRINGS voicing) with
      | Some r => r
      | None => Ok None
      end
  end.


(** ** Vocabulary of the specification *)

(** [canonical_names[semitone mod 12]]. *)
Definition pitch_class (semitone : Z) : string :=
  default EmptyString (NOTE_ORDER !! Z.to_nat (semitone `mod` 12)).

(** Position of a pitch-class name in [NOTE_ORDER]. *)
Definition pc_index (name : string) : option nat :=
  fst <$> list_find (λ n, n = name) NOTE_ORDER.

(** One name comes before another in [NOTE_ORDER]. *)
Definition pc_lt (a b : string) : Prop :=
  match pc_index a, pc_index b with
  | Some i, Some j => (i < j)%nat
  | _, _ => False
  end.

(** A list of names ascends by pitch-class index. *)
Definition pc_ascending (l : list string) : Prop := Sorted pc_lt l.

(** A FretValue: the muted marker, or a fret from 0 to the configured
    maximum. *)
Definition fret_value (v : Py.value) : Prop :=
  v = MUTED ∨ ∃ f, v = Py.Int f ∧ 0 ≤ f ≤ MAX_FRET.

Global Instance fret_value_dec v : Decision (fret_value v).
Proof.
  refine (match v with
          | Py.Int f => cast_if (decide (0 ≤ f ≤ MAX_FRET))
          | Py.Str s => cast_if (decide (s = "X"))
          end); unfold fret_value, MUTED.
  - right. by exists f.
  - intros [?|(f' & [= <-] & ?)]; done.
  - left. by subst.
  - intros [[= ?]|(f' & ? & ?)]; done.
Defined.

(** Some character of the text is a digit for [isdigit]. *)
Fixpoint has_digit (s : string) : bool :=
  match s with
  | EmptyString => false
  | String c rest => Py.isdigit c || has_digit rest
  end.

(** The pitch-class that a string sounds at an integer fret; [None] for a
    muted string, and for a fret that is not an integer. *)
Definition sounding_pc (string_note : string) (fret : Py.value) : option string :=
  match fret, note_to_semitone string_note with
  | Py.Int f, Ok base => Some (pitch_class (base + f))
  | _, _ => None
  end.

(** The frets from 0 to the maximum whose pitch-class on a string of open
    semitone [base] is in [target], in ascending order. *)
Definition matching_frets (base : Z) (target : gset string) : list Z :=
  filter (λ f, pitch_class (base + f) ∈ target) (seqZ 0 (MAX_FRET + 1)).

(** String [i] is the first string, low to high, whose fret satisfies
    [P]. *)
Definition first_string (P : Py.value → Prop) (voicing : list Py.value)
    (i : nat) (string_note : string) (fret : Py.value) : Prop :=
  STRINGS !! i = Some string_note ∧ voicing !! i = Some fret ∧ P fret ∧
  ∀ j fret', (j < i)%nat → voicing !! j = Some fret' → ¬ P fret'.

(** No string has a fret that satisfies [P]. *)
Definition no_string (P : Py.value → Prop) (voicing : list Py.value) : Prop :=
  ∀ i string_note fret,
    STRINGS !! i = Some string_note → voicing !! i = Some fret → ¬ P fret.

(** ** Further vocabulary *)

(** The text that [semitone_to_note] writes for a semitone. *)
Definition note_text (semitone : Z) : string :=
  pitch_class semitone +:+ Py.str_of_int (semitone `div` 12).

(** The frets from 0 to the maximum at which the note, without its last
    character, is in [target]: the test the code applies. *)
Definition collected_frets (base : Z) (target : gset string) : list Z :=
  filter (λ f, Py.drop_last (note_text (base + f)) ∈ target)
         (seqZ 0 (MAX_FRET + 1)).

(** The fret that one character of a text voicing stands for: the muted
    marker for the letter X, the integer for a decimal digit. *)
Definition fret_of_char (c : ascii) : option Py.value :=
  if Ascii.eqb c "X" then Some MUTED else Py.Int <$> Py.digit_value c.

Fixpoint decode_voicing (s : string) : option (list Py.value) :=
  match s with
  | EmptyString => Some []
  | String c rest =>
      fret ← fret_of_char c; frets ← decode_voicing rest; Some (fret :: frets)
  end.

(** ** Chord catalog *)

(** A [dict] with [str] keys, as the list of its items in insertion order;
    the keys of a [dict] are pairwise distinct. *)
Module Dict.

(** [d[k]], for a key that is present: the value of the item with key
    [k]. *)
Fixpoint get {V} (d : list (string * V)) (k : string) : option V :=
  match d with
  | [] => None
  | (k', v) :: d' => if String.eqb k' k then Some v else get d' k
  end.

(** [list(d.keys())]. *)
Definition keys {V} (d : list (string * V)) : list string := d.*1.

(** [k in d]. *)
Definition contains {V} (d : list (string * V)) (k : string) : bool :=
  bool_decide (k ∈ keys d).

End Dict.

(** [', '.join(l)] and the like. *)
Fixpoint join (sep : string) (l : list string) : string :=
  match l with
  | [] => EmptyString
  | [x] => x
  | x :: rest => x +:+ sep +:+ join sep rest
  end.

(** The value the catalog holds for a chord: a [dict] with the two keys
    ['notes'] and ['positions']. *)
Record chord_info : Set := ChordInfo {
  info_notes : list string;
  info_positions : list string
}.

Definition _load_chord_database : list (string * chord_info) :=
  [ ("C", ChordInfo ["C"; "E"; "G"] ["x32010"; "x35553"]);
    ("G", ChordInfo ["G"; "B"; "D"] ["320003"; "355433"]);
    ("D", ChordInfo ["D"; "F#"; "A"] ["xx0232"; "x54232"]);
    ("A", ChordInfo ["A"; "C#"; "E"] ["x02220"; "x02225"]);
    ("E", ChordInfo ["E"; "G#"; "B"] ["022100"; "022104"]);
    ("F", ChordInfo ["F"; "A"; "C"] ["133211"; "133111"]);
    ("Am", ChordInfo ["A"; "C"; "E"] ["x02210"; "x02213"]);
    ("Em", ChordInfo ["E"; "G"; "B"] ["022000"; "022003"]);
    ("Dm", ChordInfo ["D"; "F"; "A"] ["xx0231"; "x54231"]) ].

(** An instance of the class: its one attribute. *)
Record GuitarChordAnalyzer : Set := Analyzer {
  chord_database : list (string * chord_info)
}.

Definition __init__ : GuitarChordAnalyzer := Analyzer _load_chord_database.

Definition analyze_chord (self : GuitarChordAnalyzer) (chord_name : string)
  : option chord_info :=
  if Dict.contains (chord_database self) chord_name
  then Dict.get (chord_database self) chord_name
  else None.

Definition get_chord_positions (self : GuitarChordAnalyzer)
    (chord_name : string) : list string :=
  match analyze_chord self chord_name with
  | Some chord_info => info_positions chord_info
  | None => []
  end.

Definition get_chord_notes (self : GuitarChordAnalyzer) (chord_name : string)
  : list string :=
  match analyze_chord self chord_name with
  | Some chord_info => info_notes chord_info
  | None => []
  end.

Definition list_all_chords (self : GuitarChordAnalyzer) : list string :=
  Dict.keys (chord_database self).

(** The line feed character. *)
Definition nl : string := String "010" EmptyString.

(** [visualize_chord]: the texts handed to [print], one per call, in
    order.  [position] is [None] or a [str]. *)
Definition visualize_chord (self : GuitarChordAnalyzer) (chord_name : string)
    (position : option string) : list string :=
  match analyze_chord self chord_name with
  | None => ["Chord '" +:+ chord_name +:+ "' not found in database."]
  | Some chord_info =>
      [ nl +:+ "=== " +:+ chord_name +:+ " Chord ===";
        "Notes: " +:+ join ", " (info_notes chord_info);
        "Available positions: " +:+ join ", " (info_positions chord_info) ]
      ++ match position with
         | Some pos =>
             if Py.truthy position
                && bool_decide (pos ∈ info_positions chord_info)
             then [nl +:+ "Finger position: " +:+ pos]
             else []
         | None => []
         end
  end.

(** * Properties *)

(** ** Decimal text *)

Lemma bind_Ok {A B} (a : A) (k : A → result B) : Ok a ≫= k = k a.
Proof. reflexivity. Qed.

Lemma bind_Raise {A B} e (k : A → result B) : Raise e ≫= k = Raise e.
Proof. reflexivity. Qed.

Section decimal.

Lemma app_cons c s t : String c s +:+ t = String c (s +:+ t).
Proof. reflexivity. Qed.

Lemma app_empty t : EmptyString +:+ t = t.
Proof. reflexivity. Qed.

Lemma digit_value_char d :
  (d < 10)%N → Py.digit_value (pretty_N_char d) = Some (Z.of_N d).
Proof.
  intros Hd.
  assert (d = 0 ∨ d = 1 ∨ d = 2 ∨ d = 3 ∨ d = 4 ∨ d = 5 ∨ d = 6 ∨ d = 7
          ∨ d = 8 ∨ d = 9)%N as Hcases by lia.
  destruct_or!; subst d; reflexivity.
Qed.

(** A character that [int] reads as a digit is a digit for [isdigit], is no
    blank, no sign and no underscore. *)
Lemma digit_value_Some c d :
  Py.digit_value c = Some d →
  Py.isdigit c = true ∧ Py.isspace c = false ∧
  c ≠ "+"%char ∧ c ≠ "-"%char ∧ 0 ≤ d ≤ 9.
Proof.
  destruct c as [[] [] [] [] [] [] [] []]; vm_compute; intros [= <-];
    repeat split; congruence.
Qed.

(** Reading back the digits that [pretty] wrote in front of [s]. *)
Lemma scan_digits_pretty_go x s p :
  (0 < x)%N →
  Py.scan_digits (pretty_N_go x s) 0 p = Py.scan_digits s (Z.of_N x) Py.PDigit.
Proof.
  revert s. induction (N.lt_wf_0 x) as [x _ IH]; intros s Hx.
  rewrite pretty_N_go_step by done.
  assert (x `mod` 10 < 10)%N as Hm by (apply N.mod_lt; lia).
  pose proof (N.div_mod x 10 ltac:(lia)) as Hdm.
  destruct (decide (x `div` 10 = 0)%N) as [Hq|Hq].
  - rewrite Hq, pretty_N_go_0. cbn [Py.scan_digits].
    rewrite (digit_value_char _ Hm). f_equal. lia.
  - rewrite IH by (try apply N.div_lt; lia).
    cbn [Py.scan_digits]. rewrite (digit_value_char _ Hm). f_equal. lia.
Qed.

(** The text of a positive number starts with a decimal digit. *)
Lemma pretty_go_head x s :
  (0 < x)%N →
  ∃ c r d, pretty_N_go x s = String c r ∧ Py.digit_value c = Some d.
Proof.
  revert s. induction (N.lt_wf_0 x) as [x _ IH]; intros s Hx.
  rewrite pretty_N_go_step by done.
  assert (x `mod` 10 < 10)%N as Hm by (apply N.mod_lt; lia).
  destruct (decide (x `div` 10 = 0)%N) as [Hq|Hq].
  - rewrite Hq, pretty_N_go_0.
    eexists _, _, _. split; [done|]. by apply digit_value_char.
  - assert (x `div` 10 < x)%N by (apply N.div_lt; lia).
    apply IH; [done|]. by apply N.neq_0_lt_0.
Qed.

Lemma str_of_int_head z :
  0 ≤ z → ∃ c r d, Py.str_of_int z = String c r ∧ Py.digit_value c = Some d.
Proof.
  intros Hz. destruct z as [|p|p]; [|..|lia].
  - exists "0"%char, EmptyString, 0. split; reflexivity.
  - apply (pretty_go_head (N.pos p) EmptyString). lia.
Qed.

Lemma int_of_digits s :
  (∃ c r d, s = String c r ∧ Py.digit_value c = Some d) →
  ∀ n, Py.scan_digits s 0 Py.PNone = Some (n, EmptyString) →
  Py.int_of_str s = Ok n.
Proof.
  intros (c & r & d & -> & Hd) n Hscan.
  destruct (digit_value_Some _ _ Hd) as (_ & Hsp & Hplus & Hminus & _).
  unfold Py.int_of_str. cbn [Py.skip_spaces]. rewrite Hsp.
  destruct (decide (c = "+"%char)) as [->|]; [done|].
  destruct (decide (c = "-"%char)) as [->|]; [done|].
  assert ((match String c r with
           | String "+" rest => (1, rest)
           | String "-" rest => (-1, rest)
           | _ => (1, String c r)
           end) = (1, String c r)) as ->.
  { destruct c as [[] [] [] [] [] [] [] []]; try reflexivity; congruence. }
  rewrite Hscan. cbn. f_equal. lia.
Qed.

(** [int(str(z)) == z] for a non-negative [z]. *)
Lemma int_of_str_of_int z : 0 ≤ z → Py.int_of_str (Py.str_of_int z) = Ok z.
Proof.
  intros Hz. apply int_of_digits; [by apply str_of_int_head|].
  destruct z as [|p|p]; [done| |lia].
  change (Py.str_of_int (Z.pos p)) with (pretty_N_go (N.pos p) EmptyString).
  by rewrite scan_digits_pretty_go.
Qed.

End decimal.

(** ** Pitch model *)

Section pitch.

Lemma first_digit_app name c r :
  has_digit name = false → Py.isdigit c = true →
  first_digit (name +:+ String c r) = Some (String.length name).
Proof.
  intros Hname Hc. induction name as [|a name IH].
  - rewrite app_empty. cbn [first_digit]. by rewrite Hc.
  - cbn [has_digit] in Hname. apply orb_false_iff in Hname as [Ha Hname].
    rewrite app_cons. cbn [first_digit String.length].
    by rewrite Ha, IH.
Qed.

Lemma first_digit_None s : first_digit s = None ↔ has_digit s = false.
Proof.
  induction s as [|a s IH]; cbn [first_digit has_digit]; [done|].
  destruct (Py.isdigit a); cbn [orb]; [done|].
  rewrite <-IH. by destruct (first_digit s).
Qed.

Lemma slice_to_app name t :
  Py.slice_to (String.length name) (name +:+ t) = name.
Proof.
  induction name as [|a name IH]; [by destruct t|].
  rewrite app_cons. cbn [String.length Py.slice_to]. by rewrite IH.
Qed.

Lemma slice_from_app name t :
  Py.slice_from (String.length name) (name +:+ t) = t.
Proof. induction name as [|a name IH]; [by destruct t|done]. Qed.

(** A digit-free prefix followed by the decimal text of a non-negative
    octave parses into that prefix and that octave, whatever the prefix. *)
Lemma parse_note_render name octave :
  has_digit name = false → 0 ≤ octave →
  parse_note (name +:+ Py.str_of_int octave) = Ok (name, octave).
Proof.
  intros Hname Hoct. unfold parse_note.
  destruct (str_of_int_head octave Hoct) as (c & r & d & Hstr & Hd).
  destruct (digit_value_Some _ _ Hd) as (Hc & _).
  rewrite Hstr, (first_digit_app _ _ _ Hname Hc), <-Hstr.
  rewrite slice_from_app, slice_to_app, int_of_str_of_int by done.
  reflexivity.
Qed.

Lemma NOTE_ORDER_lookup i name :
  NOTE_ORDER !! i = Some name →
  has_digit name = false ∧ Py.index NOTE_ORDER name = Ok (Z.of_nat i)
  ∧ (i < 12)%nat.
Proof.
  intros Hi.
  do 12 (destruct i as [|i];
         [injection Hi as <-; split_and!; [reflexivity..|lia]|]).
  discriminate.
Qed.

Lemma note_to_semitone_render i name octave :
  NOTE_ORDER !! i = Some name → 0 ≤ octave →
  note_to_semitone (name +:+ Py.str_of_int octave)
  = Ok (Z.of_nat i + 12 * octave).
Proof.
  intros Hi Hoct. destruct (NOTE_ORDER_lookup _ _ Hi) as (Hname & Hidx & _).
  unfold note_to_semitone. rewrite parse_note_render by done.
  by rewrite bind_Ok, Hidx.
Qed.

Lemma pitch_class_lookup s :
  NOTE_ORDER !! Z.to_nat (s `mod` 12) = Some (pitch_class s).
Proof.
  unfold pitch_class.
  destruct (lookup_lt_is_Some_2 NOTE_ORDER (Z.to_nat (s `mod` 12)))
    as [name ->]; [|done].
  pose proof (Z.mod_pos_bound s 12). cbn. lia.
Qed.

Lemma semitone_to_note_eq s :
  semitone_to_note s = Ok (pitch_class s +:+ Py.str_of_int (s `div` 12)).
Proof.
  unfold semitone_to_note, Py.getitem, Py.mod_, Py.floordiv.
  pose proof (Z.mod_pos_bound s 12 ltac:(lia)) as Hm.
  change (Z.of_nat (length NOTE_ORDER)) with 12.
  destruct (Z.ltb_spec (s `mod` 12) 0); [lia|].
  destruct (Z.leb_spec 0 (s `mod` 12)); [|lia].
  destruct (Z.ltb_spec (s `mod` 12) 12); [|lia].
  cbn [andb]. by rewrite pitch_class_lookup.
Qed.

End pitch.

(** C1.  Round trip on notes: for every pitch-class name of [NOTE_ORDER] and
    every non-negative octave, converting the note (the name followed by the
    octave in decimal) to its semitone and back gives the same note. *)
Theorem note_round_trip name octave :
  name ∈ NOTE_ORDER → 0 ≤ octave →
  note_to_semitone (name +:+ Py.str_of_int octave) ≫= semitone_to_note
  = Ok (name +:+ Py.str_of_int octave).
Proof.
  intros [i Hi]%list_elem_of_lookup Hoct.
  destruct (NOTE_ORDER_lookup _ _ Hi) as (_ & _ & Hlt).
  rewrite (note_to_semitone_render i) by done.
  rewrite bind_Ok, semitone_to_note_eq.
  assert ((Z.of_nat i + 12 * octave) `mod` 12 = Z.of_nat i) as Hmod.
  { rewrite (Z.mul_comm 12), Z.mod_add by lia. apply Z.mod_small. lia. }
  assert ((Z.of_nat i + 12 * octave) `div` 12 = octave) as ->.
  { rewrite (Z.mul_comm 12), Z.div_add by lia. rewrite Z.div_small; lia. }
  unfold pitch_class. by rewrite Hmod, Nat2Z.id, Hi.
Qed.

Lemma note_round_trip_witness :
  note_to_semitone "C#4" ≫= semitone_to_note = Ok "C#4".
Proof.
  apply (note_round_trip "C#" 4).
  - apply list_elem_of_lookup. by exists 1%nat.
  - lia.
Defined.

(** C2.  Round trip on semitones: for every non-negative integer [s],
    converting [s] to its note and back gives [s]. *)
Theorem semitone_round_trip s :
  0 ≤ s → semitone_to_note s ≫= note_to_semitone = Ok s.
Proof.
  intros Hs. rewrite semitone_to_note_eq, bind_Ok.
  pose proof (Z.mod_pos_bound s 12 ltac:(lia)) as Hm.
  rewrite (note_to_semitone_render _ _ _ (pitch_class_lookup s))
    by (apply Z.div_pos; lia).
  f_equal. rewrite Z2Nat.id by lia. pose proof (Z.div_mod s 12). lia.
Qed.

Lemma semitone_round_trip_witness :
  semitone_to_note 49 ≫= note_to_semitone = Ok 49.
Proof. apply (semitone_round_trip 49). lia. Defined.

(** C10.  [semitone_to_note] is total on the integers, negative ones
    included, with floor-division octaves: writing [s = 12 * q + r] with
    [0 <= r < 12], the result is the name at position [r] of [NOTE_ORDER]
    followed by the decimal text of [q]; no exception is raised.  For
    instance semitone -1 is the note B of octave -1. *)
Theorem semitone_to_note_total s :
  ∃ q r name,
    s = 12 * q + r ∧ 0 ≤ r < 12 ∧
    r = Py.mod_ s 12 ∧ q = Py.floordiv s 12 ∧
    NOTE_ORDER !! Z.to_nat r = Some name ∧
    semitone_to_note s = Ok (name +:+ Py.str_of_int q) ∧
    semitone_to_note (-1) = Ok "B-1".
Proof.
  exists (s `div` 12), (s `mod` 12), (pitch_class s).
  pose proof (Z.mod_pos_bound s 12 ltac:(lia)).
  pose proof (Z.div_mod s 12 ltac:(lia)).
  split_and!; try done; try lia.
  - apply pitch_class_lookup.
  - apply semitone_to_note_eq.
Qed.

(** ** Fretboard model *)

Section fretboard.

Lemma drop_last_snoc name c : Py.drop_last (name +:+ String c EmptyString) = name.
Proof.
  induction name as [|a name IH]; [done|].
  rewrite app_cons. cbn [Py.drop_last]. rewrite IH.
  by destruct name.
Qed.

(** Up to octave 9 the octave is one character, which [note[:-1]] drops. *)
Lemma drop_last_octave name q :
  0 ≤ q ≤ 9 → Py.drop_last (name +:+ Py.str_of_int q) = name.
Proof.
  intros Hq.
  assert (q = 0 ∨ q = 1 ∨ q = 2 ∨ q = 3 ∨ q = 4 ∨ q = 5 ∨ q = 6 ∨ q = 7
          ∨ q = 8 ∨ q = 9) as Hcases by lia.
  destruct_or!; subst q; apply drop_last_snoc.
Qed.

Lemma pitch_class_elem s : pitch_class s ∈ NOTE_ORDER.
Proof. apply list_elem_of_lookup. eauto using pitch_class_lookup. Qed.

Lemma pitch_class_nonempty s : ∃ c r, pitch_class s = String c r.
Proof.
  assert (Forall (λ n, ∃ c r, n = String c r) NOTE_ORDER) as Hall
    by (repeat constructor; eauto).
  rewrite Forall_forall in Hall. apply Hall, pitch_class_elem.
Qed.

(** Below semitone 120 the note without its last character is its
    pitch-class. *)
Lemma note_pitch_class s :
  0 ≤ s < 120 →
  ∃ note, semitone_to_note s = Ok note ∧ Py.truthy (Some note) = true
          ∧ Py.drop_last note = pitch_class s.
Proof.
  intros Hs. eexists. split; [apply semitone_to_note_eq|]. split.
  - destruct (pitch_class_nonempty s) as (c & r & ->). done.
  - apply drop_last_octave.
    split; [apply Z.div_pos; lia|].
    apply Z.lt_succ_r, Z.div_lt_upper_bound; lia.
Qed.

Lemma get_note_int string_note base f :
  note_to_semitone string_note = Ok base →
  get_note_from_string_fret string_note (Py.Int f)
  = (note ← semitone_to_note (base + f); Ok (Some note)).
Proof. intros Hbase. unfold get_note_from_string_fret. by rewrite Hbase. Qed.

Lemma get_note_muted string_note :
  get_note_from_string_fret string_note MUTED = Ok None.
Proof. reflexivity. Qed.

Lemma STRINGS_semitone i string_note :
  STRINGS !! i = Some string_note →
  ∃ base, note_to_semitone string_note = Ok base ∧ 28 ≤ base ≤ 52.
Proof.
  intros Hi.
  do 6 (destruct i as [|i];
        [injection Hi as <-; eexists; split; [vm_compute; reflexivity|lia]|]).
  discriminate.
Qed.

Section scan.

Context (base : Z) (target : gset string).

(** The loop of [get_fret_positions], as long as every note visited is
    below semitone 120. *)
Lemma scan_frets_spec frets positions :
  Forall (λ f, 0 ≤ base + f < 120) frets →
  scan_frets base target frets positions
  = Ok (positions
        ++ (Py.Int <$> filter (λ f, pitch_class (base + f) ∈ target) frets)).
Proof.
  intros Hfrets. revert positions.
  induction Hfrets as [|f frets Hf _ IH]; intros positions;
    cbn [scan_frets].
  - by rewrite filter_nil, app_nil_r.
  - destruct (note_pitch_class _ Hf) as (note & -> & _ & Hpc).
    rewrite bind_Ok, Hpc, IH, filter_cons.
    case_bool_decide; case_decide; try done.
    by rewrite <-app_assoc.
Qed.

(** With an empty target nothing is collected, whatever the octave. *)
Lemma scan_frets_empty frets positions :
  scan_frets base ∅ frets positions = Ok positions.
Proof.
  revert positions. induction frets as [|f frets IH]; intros positions;
    cbn [scan_frets]; [done|].
  rewrite semitone_to_note_eq, bind_Ok, IH.
  by rewrite bool_decide_eq_false_2 by set_solver.
Qed.

End scan.

(** [get_fret_positions] on a string whose frets all stay below octave 10:
    the matching frets in ascending order, then the muted marker. *)
Lemma get_fret_positions_spec string_note base target :
  note_to_semitone string_note = Ok base →
  0 ≤ base → base + MAX_FRET < 120 →
  get_fret_positions string_note target
  = Ok ((Py.Int <$> matching_frets base target) ++ [MUTED]).
Proof.
  intros Hbase Hlo Hhi. unfold get_fret_positions, matching_frets.
  rewrite Hbase, bind_Ok, scan_frets_spec; [done|].
  apply Forall_forall. intros f Hf%elem_of_seqZ. unfold MAX_FRET in *. lia.
Qed.

Lemma get_fret_positions_empty string_note base :
  note_to_semitone string_note = Ok base →
  get_fret_positions string_note ∅ = Ok [MUTED].
Proof.
  intros Hbase. unfold get_fret_positions.
  by rewrite Hbase, bind_Ok, scan_frets_empty.
Qed.

End fretboard.

(** ** Voicing analyzer *)

Section voicing.

Implicit Types (pairs : list (string * Py.value)) (voicing : list Py.value).

(** A FretValue on one of the six strings resolves without error, and the
    note without its last character is the pitch-class the string
    sounds. *)
Lemma resolve_fret_value string_note fret :
  string_note ∈ STRINGS → fret_value fret →
  ∃ note, get_note_from_string_fret string_note fret = Ok note
          ∧ pitch_class_or_none note = sounding_pc string_note fret.
Proof.
  intros [i Hi]%list_elem_of_lookup Hfret.
  destruct (STRINGS_semitone _ _ Hi) as (base & Hbase & Hrange).
  destruct Hfret as [->|(f & -> & Hf)].
  - exists None. by rewrite get_note_muted.
  - unfold MAX_FRET in Hf.
    destruct (note_pitch_class (base + f)) as (note & Hnote & Ht & Hpc);
      [lia|].
    exists (Some note). rewrite (get_note_int _ _ _ Hbase), Hnote.
    split; [done|].
    unfold pitch_class_or_none, sounding_pc. by rewrite Ht, Hbase, <-Hpc.
Qed.

Lemma sounding_pc_Some string_note fret :
  string_note ∈ STRINGS → fret_value fret → fret ≠ MUTED →
  ∃ base f, note_to_semitone string_note = Ok base ∧ fret = Py.Int f
            ∧ sounding_pc string_note fret = Some (pitch_class (base + f)).
Proof.
  intros [i Hi]%list_elem_of_lookup [->|(f & -> & Hf)] Hne; [done|].
  destruct (STRINGS_semitone _ _ Hi) as (base & Hbase & _).
  exists base, f. unfold sounding_pc. by rewrite Hbase.
Qed.

Lemma zip_fret_values voicing :
  Forall fret_value voicing →
  Forall (λ p, p.1 ∈ STRINGS ∧ fret_value p.2) (zip STRINGS voicing).
Proof.
  rewrite !Forall_forall. intros Hv [string_note fret] Hin. split.
  - by eapply elem_of_zip_l.
  - eapply Hv. by eapply elem_of_zip_r.
Qed.

Lemma lookup_zip voicing i string_note fret :
  zip STRINGS voicing !! i = Some (string_note, fret)
  ↔ STRINGS !! i = Some string_note ∧ voicing !! i = Some fret.
Proof.
  rewrite lookup_zip_with_Some. split.
  - by intros (x & y & [= -> ->] & ? & ?).
  - intros [? ?]. by exists string_note, fret.
Qed.

(** *** The loop that collects the pitch-classes *)

Lemma append_if_note notes note :
  match note with
  | Some (String _ _ as n) => notes ++ [Py.drop_last n]
  | _ => notes
  end
  = notes ++ option_list (pitch_class_or_none note).
Proof. destruct note as [[|c r]|]; cbn; by rewrite ?app_nil_r. Qed.

Lemma collect_notes_spec pairs notes :
  Forall (λ p, p.1 ∈ STRINGS ∧ fret_value p.2) pairs →
  collect_notes pairs notes
  = Ok (notes ++ omap (λ p, sounding_pc p.1 p.2) pairs).
Proof.
  intros Hpairs. revert notes.
  induction Hpairs as [|[string_note fret] pairs [Hs Hf] _ IH];
    intros notes; cbn [collect_notes omap list_omap].
  - by rewrite app_nil_r.
  - cbn [fst snd] in *.
    destruct (resolve_fret_value _ _ Hs Hf) as (note & -> & Hpc).
    rewrite bind_Ok, append_if_note, IH, Hpc.
    destruct (sounding_pc string_note fret); cbn [option_list].
    + by rewrite <-app_assoc.
    + by rewrite app_nil_r.
Qed.

(** *** [sorted(set(notes))] *)

Lemma elem_of_sorted_set x l : x ∈ Py.sorted_set l ↔ x ∈ l.
Proof.
  unfold Py.sorted_set.
  by rewrite merge_sort_Permutation, elem_of_remove_dups.
Qed.

Lemma sorted_set_ascending l :
  StronglySorted String.le (Py.sorted_set l) ∧ NoDup (Py.sorted_set l).
Proof.
  unfold Py.sorted_set. split.
  - apply (StronglySorted_merge_sort _).
  - rewrite merge_sort_Permutation. apply NoDup_remove_dups.
Qed.

(** *** The two loops of the root detection *)

Lemma open_string_root_None pairs :
  Forall (λ p, p.2 ≠ Py.Int 0) pairs → open_string_root pairs = None.
Proof.
  induction 1 as [|[string_note fret] pairs Hne _ IH];
    cbn [open_string_root]; [done|].
  unfold Py.eqb. by rewrite bool_decide_eq_false_2.
Qed.

Lemma open_string_root_Some pairs i string_note :
  pairs !! i = Some (string_note, Py.Int 0) →
  (∀ j p, (j < i)%nat → pairs !! j = Some p → p.2 ≠ Py.Int 0) →
  open_string_root pairs
  = Some (note ← get_note_from_string_fret string_note (Py.Int 0);
          Ok (pitch_class_or_none note)).
Proof.
  revert i. induction pairs as [|[s fret] pairs IH]; intros i Hi Hfirst;
    [done|].
  cbn [open_string_root]. destruct i as [|i].
  - by injection Hi as -> ->.
  - unfold Py.eqb. rewrite bool_decide_eq_false_2.
    + apply (IH i Hi). intros j p Hj Hp. apply (Hfirst (S j) p); [lia|done].
    + apply (Hfirst 0%nat (s, fret)); [lia|done].
Qed.

Lemma first_sounding_root_None pairs :
  Forall (λ p, p.2 = MUTED) pairs → first_sounding_root pairs = None.
Proof.
  induction 1 as [|[string_note fret] pairs Heq _ IH];
    cbn [first_sounding_root]; [done|].
  unfold Py.eqb. by rewrite bool_decide_eq_true_2.
Qed.

Lemma first_sounding_root_Some pairs i string_note fret :
  pairs !! i = Some (string_note, fret) → fret ≠ MUTED →
  (∀ j p, (j < i)%nat → pairs !! j = Some p → p.2 = MUTED) →
  first_sounding_root pairs
  = Some (note ← get_note_from_string_fret string_note fret;
          Ok (pitch_class_or_none note)).
Proof.
  intros Hi Hne. revert i Hi.
  induction pairs as [|[s fret'] pairs IH]; intros i Hi Hfirst; [done|].
  cbn [first_sounding_root]. destruct i as [|i].
  - injection Hi as -> ->. unfold Py.eqb.
    by rewrite bool_decide_eq_false_2.
  - unfold Py.eqb. rewrite bool_decide_eq_true_2.
    + apply (IH i Hi). intros j p Hj Hp. apply (Hfirst (S j) p); [lia|done].
    + apply (Hfirst 0%nat (s, fret')); [lia|done].
Qed.

Lemma no_string_Forall (P : Py.value → Prop) voicing :
  no_string P voicing → Forall (λ p, ¬ P p.2) (zip STRINGS voicing).
Proof.
  intros Hno. apply Forall_forall. intros [s fret] [i Hi]%list_elem_of_lookup.
  apply lookup_zip in Hi as [Hs Hv]. by eapply Hno.
Qed.

Lemma collect_notes_muted pairs notes :
  Forall (λ p, p.2 = MUTED) pairs → collect_notes pairs notes = Ok notes.
Proof.
  intros Hpairs. revert notes.
  induction Hpairs as [|[s fret] pairs Heq _ IH]; intros notes;
    cbn [collect_notes]; [done|].
  cbn in Heq. subst fret. by rewrite get_note_muted, bind_Ok, IH.
Qed.

End voicing.

(** ** The claims on the fretboard model and the voicing analyzer *)

(** C3, as stated, fails: the E major voicing 022100 sounds E, G# and B, and
    the code returns them as B, E, G#, which does not ascend by pitch-class
    index (B is last in [NOTE_ORDER]). *)
Lemma notes_in_not_pitch_class_order :
  Forall fret_value (Py.Int <$> [0; 2; 2; 1; 0; 0]) ∧
  get_chord_notes_from_voicing (Py.Int <$> [0; 2; 2; 1; 0; 0])
  = Ok ["B"; "E"; "G#"] ∧
  ¬ pc_ascending ["B"; "E"; "G#"].
Proof.
  split; [apply (bool_decide_unpack _); by vm_compute|].
  split; [by vm_compute|].
  intros Hsorted. apply Sorted_inv in Hsorted as [_ Hhd].
  apply HdRel_inv in Hhd. vm_compute in Hhd. lia.
Qed.

(** C3, amended.  For every voicing made of FretValues, the result is the
    list of the pitch-classes sounded by the non-muted strings, without
    duplicates, ascending in the lexicographic order of the names
    (A, A#, B, C, C#, ..., G#). *)
Theorem notes_in_sorted_by_name voicing :
  Forall fret_value voicing →
  ∃ notes,
    get_chord_notes_from_voicing voicing = Ok notes ∧
    StronglySorted String.le notes ∧ NoDup notes ∧
    ∀ pc, pc ∈ notes ↔
          ∃ i string_note fret,
            STRINGS !! i = Some string_note ∧ voicing !! i = Some fret ∧
            sounding_pc string_note fret = Some pc.
Proof.
  intros Hv%zip_fret_values. unfold get_chord_notes_from_voicing.
  rewrite collect_notes_spec, bind_Ok by done. eexists. split; [done|].
  destruct (sorted_set_ascending
              (omap (λ p, sounding_pc p.1 p.2) (zip STRINGS voicing)))
    as [Hsorted Hnodup].
  split; [done|]. split; [done|]. intros pc.
  rewrite elem_of_sorted_set, app_nil_l, list_elem_of_omap. split.
  - intros ([s fret] & [i Hi]%list_elem_of_lookup & Hpc).
    apply lookup_zip in Hi as [Hs Hf]. by exists i, s, fret.
  - intros (i & s & fret & Hs & Hf & Hpc). exists (s, fret).
    split; [|done]. apply list_elem_of_lookup. exists i. by apply lookup_zip.
Qed.

Lemma notes_in_sorted_by_name_witness :
  ∃ notes,
    get_chord_notes_from_voicing (Py.Int <$> [0; 2; 2; 1; 0; 0]) = Ok notes ∧
    StronglySorted String.le notes ∧ NoDup notes ∧
    ∀ pc, pc ∈ notes ↔
          ∃ i string_note fret,
            STRINGS !! i = Some string_note ∧
            (Py.Int <$> [0; 2; 2; 1; 0; 0]) !! i = Some fret ∧
            sounding_pc string_note fret = Some pc.
Proof.
  apply (notes_in_sorted_by_name (Py.Int <$> [0; 2; 2; 1; 0; 0])).
  apply (bool_decide_unpack _). vm_compute. exact I.
Defined.

(** C4.  Root detection on a voicing made of FretValues, strings taken low
    to high: the pitch-class of the first string whose fret is 0 when there
    is one; otherwise the pitch-class of the first string that is not muted;
    [None] when every string is muted.  The voicing 022100 has root E, given
    as a sequence of integers or as text. *)
Theorem root_of_policy voicing :
  Forall fret_value voicing →
  (∀ i string_note fret,
     first_string (λ v, v = Py.Int 0) voicing i string_note fret →
     ∃ base, note_to_semitone string_note = Ok base ∧
             determine_root_note voicing = Ok (Some (pitch_class base))) ∧
  (no_string (λ v, v = Py.Int 0) voicing →
   ∀ i string_note fret,
     first_string (λ v, v ≠ MUTED) voicing i string_note fret →
     ∃ base f, note_to_semitone string_note = Ok base ∧ fret = Py.Int f ∧
               determine_root_note voicing
               = Ok (Some (pitch_class (base + f)))) ∧
  (no_string (λ v, v ≠ MUTED) voicing →
   determine_root_note voicing = Ok None) ∧
  determine_root_note (Py.Int <$> [0; 2; 2; 1; 0; 0]) = Ok (Some "E") ∧
  determine_root_note (Py.chars "022100") = Ok (Some "E").
Proof.
  intros Hv. split_and!; [| | |by vm_compute..].
  - intros i s fret (Hs & Hf & -> & Hfirst).
    assert (s ∈ STRINGS) as Hin by (apply list_elem_of_lookup; eauto).
    assert (fret_value (Py.Int 0)) as Hzero
      by (apply (bool_decide_unpack _); by vm_compute).
    destruct (sounding_pc_Some s (Py.Int 0) Hin Hzero)
      as (base & f & Hbase & [= <-] & Hpc); [done|].
    exists base. split; [done|]. unfold determine_root_note.
    rewrite (open_string_root_Some _ i s).
    + destruct (resolve_fret_value _ _ Hin Hzero) as (note & -> & Hnote).
      by rewrite bind_Ok, Hnote, Hpc, Z.add_0_r.
    + by apply lookup_zip.
    + intros j [s' fret'] Hj [_ Hf']%lookup_zip. by eapply Hfirst.
  - intros Hno i s fret (Hs & Hf & Hne & Hfirst).
    assert (s ∈ STRINGS) as Hin by (apply list_elem_of_lookup; eauto).
    assert (fret_value fret) as Hfv.
    { eapply Forall_forall; [exact Hv|]. apply list_elem_of_lookup; eauto. }
    destruct (sounding_pc_Some s fret Hin Hfv Hne)
      as (base & f & Hbase & -> & Hpc).
    exists base, f. split; [done|]. split; [done|].
    unfold determine_root_note.
    rewrite open_string_root_None
      by (by apply (no_string_Forall (λ v, v = Py.Int 0))).
    rewrite (first_sounding_root_Some _ i s (Py.Int f)); [|by apply lookup_zip|done|].
    + destruct (resolve_fret_value _ _ Hin Hfv) as (note & -> & Hnote).
      by rewrite bind_Ok, Hnote, Hpc.
    + intros j [s' fret'] Hj [_ Hf']%lookup_zip. cbn [snd].
      destruct (decide (fret' = MUTED)); [done|]. by destruct (Hfirst j fret').
  - intros Hno. unfold determine_root_note.
    apply no_string_Forall in Hno.
    rewrite open_string_root_None, first_sounding_root_None; [done|..].
    + eapply Forall_impl; [exact Hno|]. intros [s fret] Hm. cbn [snd] in *.
      destruct (decide (fret = MUTED)); [done|]. by destruct Hm.
    + eapply Forall_impl; [exact Hno|]. intros [s fret] Hm. cbn [snd] in *.
      intros ->. by apply Hm.
Qed.

Lemma root_of_policy_witness :
  ∃ base, note_to_semitone "E2" = Ok base ∧
          determine_root_note (Py.Int <$> [0; 2; 2; 1; 0; 0])
          = Ok (Some (pitch_class base)).
Proof.
  assert (Forall fret_value (Py.Int <$> [0; 2; 2; 1; 0; 0])) as Hv.
  { apply (bool_decide_unpack _). vm_compute. exact I. }
  apply (proj1 (root_of_policy _ Hv) 0%nat "E2" (Py.Int 0)).
  split_and!; [reflexivity..|]. intros j fret' Hj. lia.
Defined.

(** C5, as stated, fails: fret 13 is above the maximum of 12 and fret -1 is
    negative, yet both resolve to a note and nothing is raised. *)
Lemma resolve_out_of_range_returns :
  MAX_FRET < 13 ∧
  get_note_from_string_fret "E2" (Py.Int 13) = Ok (Some "F3") ∧
  ¬ raises (get_note_from_string_fret "E2" (Py.Int 13)) ∧
  get_note_from_string_fret "E2" (Py.Int (-1)) = Ok (Some "D#2") ∧
  ¬ raises (get_note_from_string_fret "E2" (Py.Int (-1))).
Proof.
  split_and!; try (by vm_compute); intros [e He]; vm_compute in He;
    discriminate.
Qed.

(** C5, amended.  Resolving a string position does not check the range of
    the fret: for an open-string note that has a semitone and any integer
    fret, negative or above the maximum included, the result is the note of
    the open semitone plus the fret, and nothing is raised. *)
Theorem resolve_unchecked string_note base f :
  note_to_semitone string_note = Ok base →
  get_note_from_string_fret string_note (Py.Int f)
  = Ok (Some (pitch_class (base + f)
              +:+ Py.str_of_int (Py.floordiv (base + f) 12))) ∧
  semitone_to_note (base + f)
  = Ok (pitch_class (base + f) +:+ Py.str_of_int (Py.floordiv (base + f) 12)).
Proof.
  intros Hbase. rewrite (get_note_int _ _ _ Hbase), semitone_to_note_eq.
  by rewrite bind_Ok.
Qed.

Lemma resolve_unchecked_witness :
  get_note_from_string_fret "E2" (Py.Int 13) = Ok (Some "F3") ∧
  semitone_to_note (28 + 13) = Ok "F3".
Proof. apply (resolve_unchecked "E2" 28 13). reflexivity. Defined.

(** C6, as stated, fails: H is not a pitch-class spelling, yet
    [parse_note] returns the pair of H and 4 for the text H4. *)
Lemma parse_note_accepts_unknown_name :
  ("H" ∉ NOTE_ORDER) ∧ parse_note "H4" = Ok ("H", 4) ∧
  ¬ raises (parse_note "H4").
Proof.
  split_and!.
  - apply (bool_decide_unpack _). by vm_compute.
  - by vm_compute.
  - intros [e He]. vm_compute in He. discriminate.
Qed.

(** C6, amended.  [parse_note] fails exactly when the text has no digit
    character or when the text from its first digit on is not an integer
    literal for [int]; the prefix before the first digit is not checked.
    The text C fails (no digit) and so does C4x (no integer after the
    name); the text H4 parses, and it is [note_to_semitone] that rejects
    it, when it looks the name up. *)
Theorem parse_note_failure :
  (∀ text,
     raises (parse_note text) ↔
     (has_digit text = false ∨
      (∃ i, first_digit text = Some i ∧
            raises (Py.int_of_str (Py.slice_from i text))))) ∧
  parse_note "C" = Raise ValueError ∧
  parse_note "C4x" = Raise ValueError ∧
  parse_note "H4" = Ok ("H", 4) ∧
  note_to_semitone "H4" = Raise ValueError.
Proof.
  split; [|by vm_compute]. intros text. unfold parse_note.
  destruct (first_digit text) as [i|] eqn:Hfirst.
  - assert (has_digit text ≠ false) as Hdigit
      by (rewrite <-first_digit_None; congruence).
    destruct (Py.int_of_str (Py.slice_from i text)) as [octave|e] eqn:Hint.
    + rewrite bind_Ok. split.
      * by intros [e [=]].
      * intros [?|(j & Hj & e & He)]; [congruence|]. injection Hj as <-.
        rewrite Hint in He. discriminate.
    + rewrite bind_Raise. split; [|by exists e].
      intros _. right. exists i. split; [done|]. by exists e.
  - apply first_digit_None in Hfirst. split; [by left|]. by exists ValueError.
Qed.

(** C7, at an input where the code departs from it.  The open string C10
    sounds the pitch-class C at frets 0 and 12, so for the target set of C
    the frets 0 and 12 match; the code returns the muted marker alone, since
    dropping the last character of C10 leaves C1. *)
Theorem get_fret_positions_octave_10 :
  note_to_semitone "C10" = Ok 120 ∧
  matching_frets 120 {[ "C" ]} = [0; 12] ∧
  semitone_to_note (120 + 0) = Ok "C10" ∧
  Py.drop_last "C10" = "C1" ∧
  get_fret_positions "C10" {[ "C" ]} = Ok [MUTED].
Proof. split_and!; by vm_compute. Qed.

(** C8, as stated, fails: on the A string the frets that sound C or E are 3
    and 7; fret 8 sounds F and is not in the result. *)
Lemma positions_A2_without_fret_8 :
  get_fret_positions "A2" {[ "C"; "E" ]} = Ok [Py.Int 3; Py.Int 7; MUTED] ∧
  (Py.Int 8 ∉ [Py.Int 3; Py.Int 7; MUTED]) ∧
  semitone_to_note (33 + 8) = Ok "F3".
Proof.
  split_and!; [by vm_compute| |by vm_compute].
  apply (bool_decide_unpack _). by vm_compute.
Qed.

(** C8, amended.  For the open string A2 and the target set of C and E the
    result is fret 3 (the note C3), then fret 7 (the note E3), then the
    muted marker. *)
Theorem positions_A2_C_E :
  note_to_semitone "A2" = Ok 33 ∧
  semitone_to_note (33 + 3) = Ok "C3" ∧
  semitone_to_note (33 + 7) = Ok "E3" ∧
  get_fret_positions "A2" {[ "C"; "E" ]} = Ok [Py.Int 3; Py.Int 7; MUTED].
Proof. split_and!; by vm_compute. Qed.

(** C9, as stated, fails: with the lowercase letter the voicing xxxxxx is
    not read as muted; both functions raise [ValueError], from [int]. *)
Lemma lowercase_muted_raises :
  get_chord_notes_from_voicing (Py.chars "xxxxxx") = Raise ValueError ∧
  determine_root_note (Py.chars "xxxxxx") = Raise ValueError ∧
  Py.int (Py.Str "x") = Raise ValueError.
Proof. split_and!; by vm_compute. Qed.

(** C9, amended.  For a voicing in which every string carries the muted
    marker, the uppercase letter X, the notes are the empty list and the
    root is [None]. *)
Theorem all_muted voicing :
  Forall (λ fret, fret = MUTED) voicing →
  get_chord_notes_from_voicing voicing = Ok [] ∧
  determine_root_note voicing = Ok None.
Proof.
  intros Hv.
  assert (Forall (λ p : string * Py.value, p.2 = MUTED) (zip STRINGS voicing))
    as Hpairs.
  { apply Forall_forall. intros [s fret] Hin%elem_of_zip_r.
    by eapply Forall_forall in Hv. }
  unfold get_chord_notes_from_voicing, determine_root_note.
  rewrite collect_notes_muted, first_sounding_root_None by done.
  rewrite open_string_root_None; [done|].
  eapply Forall_impl; [exact Hpairs|]. by intros [s fret] ->.
Qed.

Lemma all_muted_witness :
  get_chord_notes_from_voicing (Py.chars "XXXXXX") = Ok [] ∧
  determine_root_note (Py.chars "XXXXXX") = Ok None.
Proof.
  apply (all_muted (Py.chars "XXXXXX")). apply (bool_decide_unpack _).
  vm_compute. exact I.
Defined.

(** * Further properties of the code *)

(** ** Pitch model *)

Section pitch_more.

Lemma index_spec l x :
  match Py.index l x with
  | Ok z => ∃ i, l !! i = Some x ∧ z = Z.of_nat i
  | Raise e => e = ValueError ∧ x ∉ l
  end.
Proof.
  induction l as [|y l IH]; cbn [Py.index].
  - split; [done|]. apply not_elem_of_nil.
  - destruct (String.eqb_spec y x) as [->|Hne].
    + by exists 0%nat.
    + destruct (Py.index l x) as [z|e].
      * rewrite bind_Ok. destruct IH as (i & Hi & ->).
        exists (S i). split; [done|]. lia.
      * rewrite bind_Raise. destruct IH as [-> Hnot]. split; [done|].
        rewrite not_elem_of_cons. by split.
Qed.

Lemma int_of_str_ValueError s e : Py.int_of_str s = Raise e → e = ValueError.
Proof.
  unfold Py.int_of_str.
  destruct (match Py.skip_spaces s with
            | String "+" rest => (1, rest)
            | String "-" rest => (-1, rest)
            | _ => (1, Py.skip_spaces s)
            end) as [sign s2].
  destruct (Py.scan_digits s2 0 Py.PNone) as [[n s3]|]; [|congruence].
  destruct (Py.skip_spaces s3); congruence.
Qed.

Lemma parse_note_ValueError text e : parse_note text = Raise e → e = ValueError.
Proof.
  unfold parse_note. destruct (first_digit text) as [i|]; [|congruence].
  destruct (Py.int_of_str (Py.slice_from i text)) as [z|e'] eqn:Hint.
  - by rewrite bind_Ok.
  - rewrite bind_Raise. intros [= <-]. by eapply int_of_str_ValueError.
Qed.

Lemma NoDup_NOTE_ORDER : NoDup NOTE_ORDER.
Proof. apply (bool_decide_unpack _). by vm_compute. Qed.

(** The text of an integer starts with a digit or with the minus sign. *)
Lemma str_of_int_head_any z :
  ∃ c r, Py.str_of_int z = String c r ∧ c ≠ "#"%char.
Proof.
  destruct (decide (0 ≤ z)) as [Hz|Hz].
  - destruct (str_of_int_head z Hz) as (c & r & d & -> & Hd).
    exists c, r. split; [done|]. intros ->. by vm_compute in Hd.
  - destruct z as [|p|p]; [lia..|]. by eexists "-"%char, _.
Qed.

(** A name of [NOTE_ORDER] is a letter, or a letter and the sharp sign. *)
Lemma NOTE_ORDER_shape name :
  name ∈ NOTE_ORDER →
  ∃ l, name = String l EmptyString ∨ name = String l (String "#" EmptyString).
Proof.
  assert (Forall (λ n, ∃ l, n = String l EmptyString
                            ∨ n = String l (String "#" EmptyString))
                 NOTE_ORDER) as Hall by (repeat constructor; eauto).
  rewrite Forall_forall in Hall. apply Hall.
Qed.

(** A name followed by the text of an integer splits in one way only. *)
Lemma name_octave_inj n1 n2 z1 z2 :
  n1 ∈ NOTE_ORDER → n2 ∈ NOTE_ORDER →
  n1 +:+ Py.str_of_int z1 = n2 +:+ Py.str_of_int z2 → n1 = n2 ∧ z1 = z2.
Proof.
  intros [l1 H1]%NOTE_ORDER_shape [l2 H2]%NOTE_ORDER_shape Heq.
  destruct (str_of_int_head_any z1) as (c1 & r1 & Hz1 & Hc1).
  destruct (str_of_int_head_any z2) as (c2 & r2 & Hz2 & Hc2).
  assert (n1 = n2 ∧ Py.str_of_int z1 = Py.str_of_int z2) as [-> Hz].
  { rewrite Hz1, Hz2 in *.
    destruct H1 as [->| ->], H2 as [->| ->];
      rewrite ?app_cons, ?app_empty in Heq; simplify_eq; done. }
  split; [done|]. by apply (inj (pretty : Z → string)).
Qed.

End pitch_more.

Lemma app_snoc name c t :
  name +:+ String c t = (name +:+ String c EmptyString) +:+ t.
Proof.
  induction name as [|a name IH]; [done|]. by rewrite !app_cons, IH.
Qed.

Lemma semitone_of_pair i name octave :
  NOTE_ORDER !! i = Some name →
  semitone_to_note (Z.of_nat i + 12 * octave)
  = Ok (name +:+ Py.str_of_int octave).
Proof.
  intros Hi. destruct (NOTE_ORDER_lookup _ _ Hi) as (_ & _ & Hlt).
  rewrite semitone_to_note_eq.
  assert ((Z.of_nat i + 12 * octave) `mod` 12 = Z.of_nat i) as Hmod.
  { rewrite (Z.mul_comm 12), Z.mod_add by lia. apply Z.mod_small. lia. }
  assert ((Z.of_nat i + 12 * octave) `div` 12 = octave) as ->.
  { rewrite (Z.mul_comm 12), Z.div_add by lia. rewrite Z.div_small; lia. }
  unfold pitch_class. by rewrite Hmod, Nat2Z.id, Hi.
Qed.

(** X1.  [note_to_semitone] returns exactly on the texts that [parse_note]
    splits into a name of [NOTE_ORDER] and an octave, with the position of
    the name plus twelve times the octave; on every other text it raises,
    and what it raises is [ValueError].  Flat and lowercase spellings are
    among the rejected names. *)
Theorem note_to_semitone_spec text :
  (∀ s, note_to_semitone text = Ok s ↔
        ∃ i name octave,
          parse_note text = Ok (name, octave) ∧
          NOTE_ORDER !! i = Some name ∧ s = Z.of_nat i + 12 * octave) ∧
  (raises (note_to_semitone text) ↔
     (raises (parse_note text) ∨
      (∃ name octave, parse_note text = Ok (name, octave)
                      ∧ name ∉ NOTE_ORDER))) ∧
  (raises (note_to_semitone text) ↔ note_to_semitone text = Raise ValueError) ∧
  note_to_semitone "Bb3" = Raise ValueError ∧
  note_to_semitone "e2" = Raise ValueError.
Proof.
  split_and!; [| | |by vm_compute..]; unfold note_to_semitone.
  - intros s. destruct (parse_note text) as [[name octave]|e].
    + rewrite bind_Ok. pose proof (index_spec NOTE_ORDER name) as Hidx.
      destruct (Py.index NOTE_ORDER name) as [z|e].
      * rewrite bind_Ok. destruct Hidx as (i & Hi & ->). split.
        -- intros [= <-]. by exists i, name, octave.
        -- intros (j & name' & octave' & [= <- <-] & Hj & ->).
           by rewrite (NoDup_lookup _ _ _ _ NoDup_NOTE_ORDER Hi Hj).
      * rewrite bind_Raise. destruct Hidx as [_ Hnot]. split; [done|].
        intros (j & name' & octave' & [= <- <-] & Hj & _).
        destruct Hnot. apply list_elem_of_lookup. eauto.
    + rewrite bind_Raise. split; [done|]. by intros (? & ? & ? & ? & _).
  - destruct (parse_note text) as [[name octave]|e].
    + rewrite bind_Ok. pose proof (index_spec NOTE_ORDER name) as Hidx.
      destruct (Py.index NOTE_ORDER name) as [z|e].
      * rewrite bind_Ok. destruct Hidx as (i & Hi & ->). split.
        -- by intros [e [=]].
        -- intros [[e [=]]|(name' & octave' & [= <- <-] & Hnot)].
           destruct Hnot. apply list_elem_of_lookup. eauto.
      * rewrite bind_Raise. destruct Hidx as [_ Hnot]. split; [|by exists e].
        intros _. right. by exists name, octave.
    + rewrite bind_Raise. split; [|by exists e]. intros _. left. by exists e.
  - split; [|by exists ValueError]. intros [e He].
    destruct (parse_note text) as [[name octave]|e'] eqn:Hparse.
    + rewrite bind_Ok in He |- *.
      pose proof (index_spec NOTE_ORDER name) as Hidx.
      destruct (Py.index NOTE_ORDER name) as [z|e'']; [done|].
      by destruct Hidx as [-> _].
    + by rewrite (parse_note_ValueError _ _ Hparse).
Qed.

(** X2.  Below zero the round trip of C2 is lost: for every negative
    semitone, the note that [semitone_to_note] writes is rejected by
    [note_to_semitone] with [ValueError] (the minus sign of the octave ends
    up in the name). *)
Theorem negative_semitone_no_round_trip s :
  s < 0 → semitone_to_note s ≫= note_to_semitone = Raise ValueError.
Proof.
  intros Hs. rewrite semitone_to_note_eq, bind_Ok.
  assert (s `div` 12 < 0) as Hq by (apply Z.div_lt_upper_bound; lia).
  destruct (s `div` 12) as [|p|p]; [lia..|].
  change (Py.str_of_int (Z.neg p)) with (String "-" (Py.str_of_int (Z.pos p))).
  rewrite app_snoc.
  assert (Forall (λ n, has_digit (n +:+ "-") = false
                       ∧ Py.index NOTE_ORDER (n +:+ "-") = Raise ValueError)
                 NOTE_ORDER) as Hall by (repeat constructor).
  rewrite Forall_forall in Hall.
  destruct (Hall _ (pitch_class_elem s)) as [Hdigit Hidx].
  unfold note_to_semitone. rewrite parse_note_render by done.
  by rewrite bind_Ok, Hidx.
Qed.

Lemma negative_semitone_no_round_trip_witness :
  semitone_to_note (-1) ≫= note_to_semitone = Raise ValueError.
Proof. apply (negative_semitone_no_round_trip (-1)). lia. Defined.

(** X3.  [semitone_to_note] is injective on all the integers: two semitones
    with the same note are equal. *)
Theorem semitone_to_note_inj s1 s2 :
  semitone_to_note s1 = semitone_to_note s2 → s1 = s2.
Proof.
  rewrite !semitone_to_note_eq. intros [= Heq].
  apply name_octave_inj in Heq as [Hname Hq]; [|apply pitch_class_elem..].
  pose proof (pitch_class_lookup s1) as H1. rewrite Hname in H1.
  pose proof (NoDup_lookup _ _ _ _ NoDup_NOTE_ORDER H1
                (pitch_class_lookup s2)) as Hinj.
  pose proof (Z.mod_pos_bound s1 12 ltac:(lia)).
  pose proof (Z.mod_pos_bound s2 12 ltac:(lia)).
  pose proof (Z.div_mod s1 12 ltac:(lia)).
  pose proof (Z.div_mod s2 12 ltac:(lia)). lia.
Qed.

Lemma semitone_to_note_inj_witness : 40 + 9 = 49.
Proof. apply (semitone_to_note_inj (40 + 9) 49). reflexivity. Defined.

(** X4.  Adding [k] octaves of twelve semitones keeps the name of the note
    and adds [k] to its octave, for every integer semitone and every
    integer [k]. *)
Theorem semitone_to_note_octaves s k :
  ∃ name,
    name ∈ NOTE_ORDER ∧
    semitone_to_note s = Ok (name +:+ Py.str_of_int (Py.floordiv s 12)) ∧
    semitone_to_note (s + 12 * k)
    = Ok (name +:+ Py.str_of_int (Py.floordiv s 12 + k)).
Proof.
  exists (pitch_class s). split; [apply pitch_class_elem|].
  rewrite !semitone_to_note_eq. split; [done|]. unfold pitch_class, Py.floordiv.
  by rewrite (Z.mul_comm 12), Z.mod_add, Z.div_add by lia.
Qed.

(** X5.  On every text that [parse_note] splits into a name of [NOTE_ORDER]
    and an octave, the round trip through the semitone gives the name
    followed by the octave in plain decimal: the text itself when it is
    written that way, its normal form otherwise (a leading zero or a blank
    after the octave is dropped). *)
Theorem round_trip_normalizes text name octave :
  parse_note text = Ok (name, octave) → name ∈ NOTE_ORDER →
  note_to_semitone text ≫= semitone_to_note
  = Ok (name +:+ Py.str_of_int octave).
Proof.
  intros Hparse [i Hi]%list_elem_of_lookup.
  destruct (NOTE_ORDER_lookup _ _ Hi) as (_ & Hidx & _).
  unfold note_to_semitone. rewrite Hparse, bind_Ok, Hidx, !bind_Ok.
  by apply semitone_of_pair.
Qed.

Lemma round_trip_normalizes_witness :
  note_to_semitone "C#04 " ≫= semitone_to_note = Ok "C#4".
Proof.
  apply (round_trip_normalizes "C#04 " "C#" 4).
  - reflexivity.
  - apply list_elem_of_lookup. by exists 1%nat.
Defined.

(** ** Fretboard model *)

Section fretboard_more.

Global Instance Int_inj : Inj (=) (=) Py.Int.
Proof. by intros ?? [=]. Qed.

(** [int(str(z)) == z] for every integer. *)
Lemma int_of_str_of_int_any z : Py.int_of_str (Py.str_of_int z) = Ok z.
Proof.
  destruct (decide (0 ≤ z)) as [Hz|Hz]; [by apply int_of_str_of_int|].
  destruct z as [|p|p]; [lia..|].
  change (Py.str_of_int (Z.neg p))
    with (String "-" (pretty_N_go (N.pos p) EmptyString)).
  unfold Py.int_of_str. cbn [Py.skip_spaces].
  change (Py.isspace "-") with false. cbv iota.
  by rewrite scan_digits_pretty_go.
Qed.

Lemma str_of_int_not_muted z : Py.Str (Py.str_of_int z) ≠ MUTED.
Proof.
  destruct (decide (0 ≤ z)) as [Hz|Hz].
  - destruct (str_of_int_head z Hz) as (c & r & d & -> & Hd).
    intros [= -> _]. by vm_compute in Hd.
  - by destruct z as [|p|p]; [lia..|].
Qed.

Lemma scan_frets_code base target frets positions :
  scan_frets base target frets positions
  = Ok (positions
        ++ (Py.Int <$> filter (λ f, Py.drop_last (note_text (base + f)) ∈ target)
                              frets)).
Proof.
  revert positions. induction frets as [|f frets IH]; intros positions;
    cbn [scan_frets].
  - by rewrite filter_nil, app_nil_r.
  - rewrite semitone_to_note_eq, bind_Ok, IH, filter_cons.
    fold (note_text (base + f)).
    case_bool_decide; case_decide; try done.
    by rewrite <-app_assoc.
Qed.

(** What [get_fret_positions] computes, for every open string. *)
Lemma get_fret_positions_code string_note target :
  get_fret_positions string_note target
  = (base ← note_to_semitone string_note;
     Ok ((Py.Int <$> collected_frets base target) ++ [MUTED])).
Proof.
  unfold get_fret_positions.
  destruct (note_to_semitone string_note) as [base|e]; [|done].
  by rewrite !bind_Ok, scan_frets_code.
Qed.

Lemma filter_sublist_impl {A} (P Q : A → Prop)
    `{!∀ x, Decision (P x), !∀ x, Decision (Q x)} (l : list A) :
  (∀ x, P x → Q x) → filter P l `sublist_of` filter Q l.
Proof.
  intros HPQ. induction l as [|x l IH]; [done|].
  rewrite !filter_cons. destruct (decide (P x)) as [HP|HP].
  - rewrite decide_True by auto. by constructor.
  - destruct (decide (Q x)); [by constructor|done].
Qed.

End fretboard_more.

(** X6.  A fret given as the decimal text of an integer resolves like the
    integer itself, on every open string and for every integer, so a voicing
    may carry its frets as text. *)
Theorem resolve_text_fret base_note f :
  get_note_from_string_fret base_note (Py.Str (Py.str_of_int f))
  = get_note_from_string_fret base_note (Py.Int f)
  ∧ Py.int (Py.Str (Py.str_of_int f)) = Ok f.
Proof.
  split; [|apply int_of_str_of_int_any].
  unfold get_note_from_string_fret, Py.eqb.
  rewrite !bool_decide_eq_false_2 by (done || apply str_of_int_not_muted).
  cbn [Py.int]. by rewrite int_of_str_of_int_any.
Qed.

(** X7.  The three outcomes of resolving a position.  The result is [None]
    exactly for the muted marker, whatever the open-string note is, even a
    malformed one.  An exception is raised exactly when the fret is not the
    muted marker and either the open-string note is rejected by
    [note_to_semitone] or the fret is rejected by [int].  A note that is
    returned is never the empty text. *)
Theorem resolve_outcomes base_note fret :
  (get_note_from_string_fret base_note fret = Ok None ↔ fret = MUTED) ∧
  (raises (get_note_from_string_fret base_note fret) ↔
     fret ≠ MUTED ∧
     (raises (note_to_semitone base_note) ∨ raises (Py.int fret))) ∧
  match get_note_from_string_fret base_note fret with
  | Ok (Some note) => Py.truthy (Some note) = true
  | _ => True
  end.
Proof.
  unfold get_note_from_string_fret, Py.eqb. case_bool_decide as Hm.
  - split_and!; [done| |done]. split; [by intros [e [=]]|by intros [? _]].
  - destruct (note_to_semitone base_note) as [base|e].
    + rewrite bind_Ok. destruct (Py.int fret) as [f|e].
      * rewrite bind_Ok, semitone_to_note_eq, bind_Ok. split_and!.
        -- split; [done|by intros ->].
        -- split; [by intros [e [=]]|].
           intros [_ [[e [=]]|[e [=]]]].
        -- by destruct (pitch_class_nonempty (base + f)) as (c & r & ->).
      * rewrite bind_Raise. split_and!; [|split|done].
        -- split; [done|by intros ->].
        -- intros _. split; [done|]. right. by exists e.
        -- intros _. by exists e.
    + rewrite bind_Raise. split_and!; [|split|done].
      * split; [done|by intros ->].
      * intros _. split; [done|]. left. by exists e.
      * intros _. by exists e.
Qed.

(** X8.  [get_fret_positions] raises exactly when [note_to_semitone] rejects
    the open-string note, and passes its exception on; otherwise, for every
    octave and every target, the result is a selection of the frets 0 to 12
    in ascending order followed by the muted marker: it is never empty and
    has at most 14 entries. *)
Theorem get_fret_positions_shape string_note target :
  match note_to_semitone string_note with
  | Ok base =>
      ∃ frets,
        get_fret_positions string_note target
        = Ok ((Py.Int <$> frets) ++ [MUTED]) ∧
        frets `sublist_of` seqZ 0 (MAX_FRET + 1) ∧
        (1 ≤ length ((Py.Int <$> frets) ++ [MUTED]) ≤ 14)%nat
  | Raise e => get_fret_positions string_note target = Raise e
  end.
Proof.
  rewrite get_fret_positions_code.
  destruct (note_to_semitone string_note) as [base|e]; [|done].
  exists (collected_frets base target). rewrite bind_Ok.
  assert (collected_frets base target `sublist_of` seqZ 0 (MAX_FRET + 1))
    as Hsub by apply sublist_filter.
  split_and!; [done..| |]; rewrite length_app, length_fmap; cbn; [lia|].
  apply sublist_length in Hsub. rewrite length_seqZ in Hsub.
  unfold MAX_FRET in Hsub. lia.
Qed.

(** X9.  What [get_fret_positions] returns agrees with
    [get_note_from_string_fret] on the same string: an integer fret is in the
    result exactly when it lies between 0 and the maximum and the note it
    resolves to, without its last character, is in the target. *)
Theorem positions_resolve string_note target l f :
  get_fret_positions string_note target = Ok l →
  Py.Int f ∈ l ↔
  0 ≤ f ≤ MAX_FRET ∧
  ∃ note, get_note_from_string_fret string_note (Py.Int f) = Ok (Some note)
          ∧ Py.drop_last note ∈ target.
Proof.
  rewrite get_fret_positions_code.
  destruct (note_to_semitone string_note) as [base|e] eqn:Hbase; [|done].
  rewrite bind_Ok. intros [= <-].
  rewrite elem_of_app, list_elem_of_singleton, (list_elem_of_fmap_inj _).
  unfold collected_frets. rewrite list_elem_of_filter, elem_of_seqZ.
  rewrite (get_note_int _ _ _ Hbase), semitone_to_note_eq, bind_Ok.
  fold (note_text (base + f)). unfold MAX_FRET. split.
  - intros [[Hin ?]|[=]]. split; [lia|]. by eexists.
  - intros [? (note & [= <-] & Hin)]. left. split; [done|lia].
Qed.

Lemma positions_resolve_witness :
  Py.Int 7 ∈ [Py.Int 3; Py.Int 7; MUTED] ↔
  0 ≤ 7 ≤ MAX_FRET ∧
  ∃ note, get_note_from_string_fret "A2" (Py.Int 7) = Ok (Some note)
          ∧ Py.drop_last note ∈ ({[ "C"; "E" ]} : gset string).
Proof.
  apply (positions_resolve "A2" {[ "C"; "E" ]}). by vm_compute.
Defined.

(** X10.  For an open-string note from octave 0 whose fret 12 is still
    below octave 10, which each of the six strings of the tuning is,
    [get_fret_positions] returns exactly the frets 0 to 12 whose pitch-class
    is in the target, in ascending order, then the muted marker. *)
Theorem get_fret_positions_exact string_note base target :
  note_to_semitone string_note = Ok base →
  0 ≤ base → base + MAX_FRET < 120 →
  get_fret_positions string_note target
  = Ok ((Py.Int <$> matching_frets base target) ++ [MUTED]) ∧
  (∀ f, f ∈ matching_frets base target ↔
        0 ≤ f ≤ MAX_FRET ∧ pitch_class (base + f) ∈ target) ∧
  Forall (λ s, ∃ b, note_to_semitone s = Ok b ∧ 0 ≤ b ∧ b + MAX_FRET < 120)
         STRINGS.
Proof.
  intros Hbase Hlo Hhi. split_and!.
  - by apply get_fret_positions_spec.
  - intros f. unfold matching_frets.
    rewrite list_elem_of_filter, elem_of_seqZ. unfold MAX_FRET.
    split; intros [? ?]; (split; [lia || done|lia || done]).
  - apply Forall_forall. intros s [i Hi]%list_elem_of_lookup.
    destruct (STRINGS_semitone _ _ Hi) as (b & Hb & ?). exists b.
    unfold MAX_FRET. split_and!; [done|lia..].
Qed.

Lemma get_fret_positions_exact_witness :
  get_fret_positions "E4" {[ "G" ]}
  = Ok ((Py.Int <$> matching_frets 52 {[ "G" ]}) ++ [MUTED]).
Proof.
  apply (get_fret_positions_exact "E4" 52 {[ "G" ]}).
  - reflexivity.
  - lia.
  - unfold MAX_FRET. lia.
Defined.

(** X11.  A larger target never loses a position: when one target is
    included in another, the result for the first is a sub-sequence of the
    result for the second, on every open string. *)
Theorem get_fret_positions_mono string_note target1 target2 l1 :
  target1 ⊆ target2 →
  get_fret_positions string_note target1 = Ok l1 →
  ∃ l2, get_fret_positions string_note target2 = Ok l2 ∧ l1 `sublist_of` l2.
Proof.
  intros Hsub. rewrite !get_fret_positions_code.
  destruct (note_to_semitone string_note) as [base|e]; [|done].
  rewrite !bind_Ok. intros [= <-]. eexists. split; [done|].
  apply sublist_app; [|done]. apply fmap_sublist.
  apply filter_sublist_impl. intros f. apply Hsub.
Qed.

Lemma get_fret_positions_mono_witness :
  ∃ l2, get_fret_positions "A2" {[ "C"; "E" ]} = Ok l2
        ∧ [Py.Int 3; MUTED] `sublist_of` l2.
Proof.
  apply (get_fret_positions_mono "A2" {[ "C" ]} {[ "C"; "E" ]}).
  - apply (bool_decide_unpack _). by vm_compute.
  - by vm_compute.
Defined.

(** X12.  On an open string from octave 0 whose fret 12 is below octave 10,
    the open string and the twelfth fret sound the same pitch-class: fret 0
    is in the result exactly when fret 12 is. *)
Theorem open_string_and_fret_12 string_note base target l :
  note_to_semitone string_note = Ok base →
  0 ≤ base → base + MAX_FRET < 120 →
  get_fret_positions string_note target = Ok l →
  Py.Int 0 ∈ l ↔ Py.Int 12 ∈ l.
Proof.
  intros Hbase Hlo Hhi.
  rewrite (get_fret_positions_spec _ _ _ Hbase Hlo Hhi). intros [= <-].
  rewrite !elem_of_app, !list_elem_of_singleton, !(list_elem_of_fmap_inj _).
  unfold matching_frets. rewrite !list_elem_of_filter, !elem_of_seqZ.
  assert (pitch_class (base + 12) = pitch_class (base + 0)) as ->.
  { unfold pitch_class. rewrite Z.add_0_r.
    by rewrite <-(Z.mod_add base 1 12) by lia. }
  unfold MAX_FRET. split; (intros [[? ?]|[=]]; left; split; [done|lia]).
Qed.

Lemma open_string_and_fret_12_witness :
  Py.Int 0 ∈ [Py.Int 0; Py.Int 12; MUTED]
  ↔ Py.Int 12 ∈ [Py.Int 0; Py.Int 12; MUTED].
Proof.
  apply (open_string_and_fret_12 "E2" 28 {[ "E" ]}).
  - reflexivity.
  - lia.
  - unfold MAX_FRET. lia.
  - by vm_compute.
Defined.

(** ** Voicing analyzer *)

Section voicing_more.

Implicit Types (pairs : list (string * Py.value)) (voicing : list Py.value).

(** A fret that is not the muted marker, on one of the six strings: only
    [int] can fail. *)
Lemma get_note_on_string string_note fret :
  string_note ∈ STRINGS → fret ≠ MUTED →
  ∃ base, note_to_semitone string_note = Ok base ∧ 28 ≤ base ≤ 52 ∧
          get_note_from_string_fret string_note fret
          = (f ← Py.int fret; Ok (Some (note_text (base + f)))).
Proof.
  intros [i Hi]%list_elem_of_lookup Hne.
  destruct (STRINGS_semitone _ _ Hi) as (base & Hbase & Hrange).
  exists base. split_and!; [done|lia|lia|].
  unfold get_note_from_string_fret, Py.eqb.
  rewrite bool_decide_eq_false_2, Hbase, bind_Ok by done.
  destruct (Py.int fret) as [f|e]; [|done].
  by rewrite !bind_Ok, semitone_to_note_eq, bind_Ok.
Qed.

Lemma raises_bind_Ok {A B} (m : result A) (g : A → B) :
  raises (m ≫= λ a, Ok (g a)) ↔ raises m.
Proof.
  destruct m as [a|e].
  - split; by intros [e [=]].
  - split; intros _; by exists e.
Qed.

Lemma collect_notes_raises pairs notes :
  Forall (λ p, p.1 ∈ STRINGS) pairs →
  raises (collect_notes pairs notes)
  ↔ Exists (λ p, p.2 ≠ MUTED ∧ raises (Py.int p.2)) pairs.
Proof.
  intros Hpairs. revert notes.
  induction Hpairs as [|[s fret] pairs Hs _ IH]; intros notes;
    cbn [collect_notes fst snd] in *.
  - rewrite Exists_nil. split; [by intros [e [=]]|done].
  - rewrite Exists_cons. cbn [snd].
    destruct (decide (fret = MUTED)) as [->|Hne].
    + rewrite get_note_muted, bind_Ok, IH. split; [by right|].
      by intros [[? _]|?].
    + destruct (get_note_on_string _ _ Hs Hne) as (base & _ & _ & ->).
      destruct (Py.int fret) as [f|e].
      * rewrite !bind_Ok, IH. split; [by right|].
        by intros [[_ [e [=]]]|?].
      * rewrite !bind_Raise. split; [|by exists e].
        intros _. left. split; [done|]. by exists e.
Qed.

Lemma length_remove_dups_le (l : list string) :
  (length (remove_dups l) ≤ length l)%nat.
Proof.
  induction l as [|x l IH]; cbn [remove_dups length]; [done|].
  case_decide; cbn [length]; lia.
Qed.

Lemma length_omap_le {A B} (f : A → option B) (l : list A) :
  (length (omap f l) ≤ length l)%nat.
Proof.
  induction l as [|x l IH]; cbn [omap list_omap length]; [done|].
  destruct (f x); cbn [length]; lia.
Qed.

Lemma length_sorted_set_le l : (length (Py.sorted_set l) ≤ length l)%nat.
Proof.
  unfold Py.sorted_set. rewrite merge_sort_Permutation.
  apply length_remove_dups_le.
Qed.

(** *** Where the root comes from *)

Lemma open_string_root_elem pairs r :
  open_string_root pairs = Some r →
  ∃ string_note,
    (string_note, Py.Int 0) ∈ pairs ∧
    r = (note ← get_note_from_string_fret string_note (Py.Int 0);
         Ok (pitch_class_or_none note)).
Proof.
  induction pairs as [|[s fret] pairs IH]; cbn [open_string_root]; [done|].
  unfold Py.eqb. case_bool_decide as Hz.
  - subst fret. intros [= <-]. exists s. split; [apply list_elem_of_here|done].
  - intros (s' & Hin & ->)%IH. exists s'. split; [|done].
    by apply list_elem_of_further.
Qed.

Lemma first_sounding_root_elem pairs r :
  first_sounding_root pairs = Some r →
  ∃ string_note fret,
    (string_note, fret) ∈ pairs ∧ fret ≠ MUTED ∧
    r = (note ← get_note_from_string_fret string_note fret;
         Ok (pitch_class_or_none note)).
Proof.
  induction pairs as [|[s fret] pairs IH]; cbn [first_sounding_root]; [done|].
  unfold Py.eqb. case_bool_decide as Hm; cbn [negb].
  - intros (s' & fret' & Hin & Hne & ->)%IH. exists s', fret'.
    split_and!; [|done..]. by apply list_elem_of_further.
  - intros [= <-]. exists s, fret. split_and!; [apply list_elem_of_here|done..].
Qed.

Lemma first_sounding_root_None_inv pairs :
  first_sounding_root pairs = None → Forall (λ p, p.2 = MUTED) pairs.
Proof.
  induction pairs as [|[s fret] pairs IH]; cbn [first_sounding_root];
    [by constructor|].
  unfold Py.eqb. case_bool_decide as Hm; cbn [negb]; [|done].
  intros ?%IH. by constructor.
Qed.

(** On a voicing of FretValues the root is [None] with every pair muted, or
    the pitch-class sounded by one of the pairs. *)
Lemma determine_root_note_cases voicing :
  Forall fret_value voicing →
  (determine_root_note voicing = Ok None
   ∧ Forall (λ p, p.2 = MUTED) (zip STRINGS voicing))
  ∨ ∃ string_note fret pc,
      (string_note, fret) ∈ zip STRINGS voicing ∧
      sounding_pc string_note fret = Some pc ∧
      determine_root_note voicing = Ok (Some pc).
Proof.
  intros Hv%zip_fret_values. rewrite Forall_forall in Hv.
  unfold determine_root_note.
  destruct (open_string_root (zip STRINGS voicing)) as [r|] eqn:Hopen.
  - apply open_string_root_elem in Hopen as (s & Hin & ->).
    destruct (Hv _ Hin) as [Hs Hf]. cbn [fst snd] in *.
    destruct (resolve_fret_value _ _ Hs Hf) as (note & -> & Hnote).
    destruct (sounding_pc_Some _ _ Hs Hf) as (base & f & _ & _ & Hpc); [done|].
    right. exists s, (Py.Int 0), (pitch_class (base + f)).
    by rewrite bind_Ok, Hnote, Hpc.
  - destruct (first_sounding_root (zip STRINGS voicing)) as [r|] eqn:Hfirst.
    + apply first_sounding_root_elem in Hfirst as (s & fret & Hin & Hne & ->).
      destruct (Hv _ Hin) as [Hs Hf]. cbn [fst snd] in *.
      destruct (resolve_fret_value _ _ Hs Hf) as (note & -> & Hnote).
      destruct (sounding_pc_Some _ _ Hs Hf Hne) as (base & f & _ & _ & Hpc).
      right. exists s, fret, (pitch_class (base + f)).
      by rewrite bind_Ok, Hnote, Hpc.
    + left. split; [done|]. by apply first_sounding_root_None_inv.
Qed.

(** *** Text voicings *)

Lemma int_of_digit_char c d :
  Py.digit_value c = Some d → Py.int_of_str (String c EmptyString) = Ok d.
Proof.
  destruct c as [[] [] [] [] [] [] [] []]; vm_compute; intros [= <-];
    reflexivity.
Qed.

Lemma get_note_char string_note c fret :
  fret_of_char c = Some fret →
  get_note_from_string_fret string_note (Py.Str (String c EmptyString))
  = get_note_from_string_fret string_note fret
  ∧ (Py.Str (String c EmptyString) = MUTED ↔ fret = MUTED)
  ∧ fret_value fret.
Proof.
  unfold fret_of_char. destruct (Ascii.eqb_spec c "X") as [->|Hne].
  - intros [= <-]. split_and!; [done..|by left].
  - destruct (Py.digit_value c) as [d|] eqn:Hd; [|done]. intros [= <-].
    destruct (digit_value_Some _ _ Hd) as (_ & _ & _ & _ & Hrange).
    split_and!.
    + unfold get_note_from_string_fret, Py.eqb.
      rewrite !bool_decide_eq_false_2 by (unfold MUTED; congruence).
      cbn [Py.int]. by rewrite (int_of_digit_char _ _ Hd).
    + split; [|done]. intros [= ->]. done.
    + right. exists d. unfold MAX_FRET. split; [done|lia].
Qed.

Lemma decode_voicing_cons c s voicing :
  decode_voicing (String c s) = Some voicing →
  ∃ fret rest, fret_of_char c = Some fret ∧ decode_voicing s = Some rest
               ∧ voicing = fret :: rest.
Proof.
  cbn [decode_voicing]. destruct (fret_of_char c) as [fret|]; [|done].
  destruct (decode_voicing s) as [rest|]; [|done].
  intros [= <-]. by exists fret, rest.
Qed.

Lemma decode_voicing_valid s voicing :
  decode_voicing s = Some voicing → Forall fret_value voicing.
Proof.
  revert voicing. induction s as [|c s IH]; intros voicing.
  - intros [= <-]. constructor.
  - intros (fret & rest & Hc & Hs & ->)%decode_voicing_cons.
    constructor; [|by apply IH]. by eapply (get_note_char EmptyString).
Qed.

Lemma collect_notes_chars strs s voicing notes :
  decode_voicing s = Some voicing →
  collect_notes (zip strs (Py.chars s)) notes
  = collect_notes (zip strs voicing) notes.
Proof.
  revert strs voicing notes.
  induction s as [|c s IH]; intros strs voicing notes.
  - by intros [= <-].
  - intros (fret & rest & Hc & Hs & ->)%decode_voicing_cons.
    destruct strs as [|sn strs]; [done|]. cbn [Py.chars zip zip_with collect_notes].
    destruct (get_note_char sn _ _ Hc) as (-> & _ & _).
    destruct (get_note_from_string_fret sn fret) as [note|e]; [|done].
    rewrite !bind_Ok. by apply IH.
Qed.

Lemma open_string_root_chars strs s :
  open_string_root (zip strs (Py.chars s)) = None.
Proof.
  revert strs. induction s as [|c s IH]; intros [|sn strs]; try done.
  cbn [Py.chars zip zip_with open_string_root]. apply IH.
Qed.

Lemma first_sounding_root_chars strs s voicing :
  decode_voicing s = Some voicing →
  first_sounding_root (zip strs (Py.chars s))
  = first_sounding_root (zip strs voicing).
Proof.
  revert strs voicing. induction s as [|c s IH]; intros strs voicing.
  - by intros [= <-].
  - intros (fret & rest & Hc & Hs & ->)%decode_voicing_cons.
    destruct strs as [|sn strs]; [done|].
    cbn [Py.chars zip zip_with first_sounding_root].
    destruct (get_note_char sn _ _ Hc) as (-> & Hm & _).
    unfold Py.eqb. rewrite (IH _ _ Hs).
    destruct (decide (fret = MUTED)) as [Hf|Hf].
    + by rewrite !bool_decide_eq_true_2 by tauto.
    + by rewrite !bool_decide_eq_false_2 by tauto.
Qed.

End voicing_more.

(** X13.  Only the first six entries of a voicing are read, one per string:
    whatever follows them, valid or not, changes neither the notes nor the
    root. *)
Theorem voicing_truncated voicing :
  get_chord_notes_from_voicing (take 6 voicing)
  = get_chord_notes_from_voicing voicing ∧
  determine_root_note (take 6 voicing) = determine_root_note voicing.
Proof.
  unfold get_chord_notes_from_voicing, determine_root_note.
  assert (zip STRINGS (take 6 voicing) = zip STRINGS voicing) as ->
    by apply (zip_with_take_r pair STRINGS voicing).
  done.
Qed.

(** X14.  On a voicing of FretValues the notes are names of [NOTE_ORDER],
    and there are no more of them than strings in the tuning or entries in
    the voicing. *)
Theorem notes_in_bounds voicing :
  Forall fret_value voicing →
  ∃ notes,
    get_chord_notes_from_voicing voicing = Ok notes ∧
    Forall (λ pc, pc ∈ NOTE_ORDER) notes ∧
    (length notes ≤ 6)%nat ∧ (length notes ≤ length voicing)%nat.
Proof.
  intros Hv%zip_fret_values. unfold get_chord_notes_from_voicing.
  rewrite collect_notes_spec, bind_Ok, app_nil_l by done.
  eexists. split; [done|].
  pose proof (length_sorted_set_le
                (omap (λ p, sounding_pc p.1 p.2) (zip STRINGS voicing))) as Hs.
  pose proof (length_omap_le (λ p : string * Py.value, sounding_pc p.1 p.2)
                (zip STRINGS voicing)) as Ho.
  rewrite length_zip in Ho. change (length STRINGS) with 6%nat in Ho.
  split_and!; [|lia..].
  apply Forall_forall. intros pc.
  rewrite elem_of_sorted_set, list_elem_of_omap.
  intros ([s fret] & _ & Hpc). unfold sounding_pc in Hpc. cbn [fst snd] in Hpc.
  destruct fret as [f|?]; [|done].
  destruct (note_to_semitone s) as [base|?]; [|done].
  injection Hpc as <-. apply pitch_class_elem.
Qed.

Lemma notes_in_bounds_witness :
  ∃ notes,
    get_chord_notes_from_voicing (Py.Int <$> [0; 2; 2; 1; 0; 0]) = Ok notes ∧
    Forall (λ pc, pc ∈ NOTE_ORDER) notes ∧
    (length notes ≤ 6)%nat ∧
    (length notes ≤ length (Py.Int <$> [0; 2; 2; 1; 0; 0]%Z))%nat.
Proof.
  apply (notes_in_bounds (Py.Int <$> [0; 2; 2; 1; 0; 0])).
  apply (bool_decide_unpack _). vm_compute. exact I.
Defined.

(** X15.  On a voicing of FretValues the two analyses agree: the root, when
    there is one, is one of the notes, and there is no root exactly when
    there are no notes. *)
Theorem root_among_notes voicing :
  Forall fret_value voicing →
  ∃ notes root,
    get_chord_notes_from_voicing voicing = Ok notes ∧
    determine_root_note voicing = Ok root ∧
    match root with
    | Some pc => pc ∈ notes
    | None => notes = []
    end.
Proof.
  intros Hv. pose proof (zip_fret_values _ Hv) as Hpairs.
  unfold get_chord_notes_from_voicing.
  rewrite collect_notes_spec, bind_Ok, app_nil_l by done.
  destruct (determine_root_note_cases _ Hv)
    as [[-> Hm]|(s & fret & pc & Hin & Hpc & ->)].
  - eexists _, None. split_and!; [done..|].
    assert (omap (λ p, sounding_pc p.1 p.2) (zip STRINGS voicing) = [])
      as ->; [|done].
    induction Hm as [|[s fret] pairs Heq _ IH]; [done|].
    cbn [omap list_omap fst snd] in *. subst fret.
    rewrite IH; [done|]. by eapply Forall_inv_tail.
  - eexists _, (Some pc). split_and!; [done..|].
    apply elem_of_sorted_set, list_elem_of_omap. by exists (s, fret).
Qed.

Lemma root_among_notes_witness :
  ∃ notes root,
    get_chord_notes_from_voicing (Py.Int <$> [0; 2; 2; 1; 0; 0]) = Ok notes ∧
    determine_root_note (Py.Int <$> [0; 2; 2; 1; 0; 0]) = Ok root ∧
    match root with
    | Some pc => pc ∈ notes
    | None => notes = []
    end.
Proof.
  apply (root_among_notes (Py.Int <$> [0; 2; 2; 1; 0; 0])).
  apply (bool_decide_unpack _). vm_compute. exact I.
Defined.

(** X16.  For any voicing whatever, [get_chord_notes_from_voicing] raises
    exactly when one of the first six entries is not the muted marker and is
    rejected by [int]: a [str] entry that is no integer literal, such as a
    lowercase x.  Frets out of range and entries after the sixth never make
    it raise. *)
Theorem notes_in_raises voicing :
  raises (get_chord_notes_from_voicing voicing) ↔
  ∃ i fret, (i < 6)%nat ∧ voicing !! i = Some fret ∧
            fret ≠ MUTED ∧ raises (Py.int fret).
Proof.
  unfold get_chord_notes_from_voicing.
  rewrite raises_bind_Ok, collect_notes_raises, Exists_exists.
  - split.
    + intros ([s fret] & [i Hi]%list_elem_of_lookup & Hne & Hr).
      apply lookup_zip in Hi as [Hs Hf]. exists i, fret.
      split_and!; [|done..]. by apply (lookup_lt_Some STRINGS i s).
    + intros (i & fret & Hi & Hf & Hne & Hr).
      destruct (lookup_lt_is_Some_2 STRINGS i Hi) as [s Hs].
      exists (s, fret). split; [|done].
      apply list_elem_of_lookup. exists i. by apply lookup_zip.
  - apply Forall_forall. intros [s fret] Hin. by eapply elem_of_zip_l.
Qed.

(** X17.  A text voicing made of decimal digits and the uppercase letter X
    has the same notes as the voicing of the frets its characters stand
    for. *)
Theorem notes_of_text_voicing s voicing :
  decode_voicing s = Some voicing →
  get_chord_notes_from_voicing (Py.chars s)
  = get_chord_notes_from_voicing voicing.
Proof.
  intros Hs. unfold get_chord_notes_from_voicing.
  by rewrite (collect_notes_chars _ _ _ _ Hs).
Qed.

Lemma notes_of_text_voicing_witness :
  get_chord_notes_from_voicing (Py.chars "X32010")
  = get_chord_notes_from_voicing
      [MUTED; Py.Int 3; Py.Int 2; Py.Int 0; Py.Int 1; Py.Int 0].
Proof. apply (notes_of_text_voicing "X32010"). reflexivity. Defined.

(** X18.  On a text voicing the preference for an open string never
    applies, since no character equals the integer 0: for a text of digits
    and X the root is the pitch-class of the first string that is not muted,
    and [None] when all are muted.  For X32010 the text has root C while the
    voicing of the same frets as integers has root G, its open G string. *)
Theorem root_of_text_voicing s voicing :
  decode_voicing s = Some voicing →
  (∀ i string_note fret,
     first_string (λ v, v ≠ MUTED) voicing i string_note fret →
     ∃ base f, note_to_semitone string_note = Ok base ∧ fret = Py.Int f ∧
               determine_root_note (Py.chars s)
               = Ok (Some (pitch_class (base + f)))) ∧
  (no_string (λ v, v ≠ MUTED) voicing →
   determine_root_note (Py.chars s) = Ok None) ∧
  determine_root_note (Py.chars "X32010") = Ok (Some "C") ∧
  determine_root_note [MUTED; Py.Int 3; Py.Int 2; Py.Int 0; Py.Int 1; Py.Int 0]
  = Ok (Some "G").
Proof.
  intros Hs. pose proof (decode_voicing_valid _ _ Hs) as Hv.
  assert (determine_root_note (Py.chars s)
          = default (Ok None) (first_sounding_root (zip STRINGS voicing)))
    as ->.
  { unfold determine_root_note.
    rewrite open_string_root_chars, (first_sounding_root_chars _ _ _ Hs).
    by destruct (first_sounding_root (zip STRINGS voicing)). }
  split_and!; [| |by vm_compute..].
  - intros i sn fret (Hsn & Hf & Hne & Hfirst).
    assert (sn ∈ STRINGS) as Hin by (apply list_elem_of_lookup; eauto).
    assert (fret_value fret) as Hfv.
    { eapply Forall_forall; [exact Hv|]. apply list_elem_of_lookup; eauto. }
    destruct (sounding_pc_Some sn fret Hin Hfv Hne)
      as (base & f & Hbase & -> & Hpc).
    exists base, f. split; [done|]. split; [done|].
    rewrite (first_sounding_root_Some _ i sn (Py.Int f));
      [|by apply lookup_zip|done|].
    + destruct (resolve_fret_value _ _ Hin Hfv) as (note & -> & Hnote).
      by rewrite bind_Ok, Hnote, Hpc.
    + intros j [s' fret'] Hj [_ Hf']%lookup_zip. cbn [snd].
      destruct (decide (fret' = MUTED)); [done|]. by destruct (Hfirst j fret').
  - intros Hno%no_string_Forall. rewrite first_sounding_root_None; [done|].
    eapply Forall_impl; [exact Hno|]. intros [s' fret] Hm. cbn [snd] in *.
    destruct (decide (fret = MUTED)); [done|]. by destruct Hm.
Qed.

Lemma root_of_text_voicing_witness :
  ∃ base f, note_to_semitone "A2" = Ok base ∧ Py.Int 3 = Py.Int f ∧
            determine_root_note (Py.chars "X32010")
            = Ok (Some (pitch_class (base + f))).
Proof.
  assert (decode_voicing "X32010"
          = Some [MUTED; Py.Int 3; Py.Int 2; Py.Int 0; Py.Int 1; Py.Int 0])
    as Hs by reflexivity.
  apply (proj1 (root_of_text_voicing _ _ Hs) 1%nat "A2" (Py.Int 3)).
  split_and!; [reflexivity..|done|].
  intros j fret' Hj Hf'. destruct j as [|j]; [|lia].
  injection Hf' as <-. intros H. by apply H.
Defined.

(** ** Chord catalog *)

Section catalog.

Context (self : GuitarChordAnalyzer).

Lemma dict_get_None {V} (d : list (string * V)) k :
  Dict.get d k = None ↔ k ∉ Dict.keys d.
Proof.
  unfold Dict.keys. induction d as [|[k' v] d IH]; cbn [Dict.get fmap list_fmap fst].
  - split; [intros _; apply not_elem_of_nil|done].
  - rewrite not_elem_of_cons. destruct (String.eqb_spec k' k) as [->|Hne].
    + split; [done|]. by intros [? _].
    + rewrite IH. split; [|by intros [_ ?]]. intros ?. split; [congruence|done].
Qed.

Lemma dict_get_Some {V} (d : list (string * V)) k v :
  Dict.get d k = Some v → (k, v) ∈ d.
Proof.
  induction d as [|[k' v'] d IH]; cbn [Dict.get]; [done|].
  destruct (String.eqb_spec k' k) as [->|Hne].
  - intros [= ->]. apply list_elem_of_here.
  - intros ?%IH. by apply list_elem_of_further.
Qed.

(** The test [chord_name in self.chord_database] guards a subscript that
    would find nothing anyway. *)
Lemma analyze_chord_get chord_name :
  analyze_chord self chord_name = Dict.get (chord_database self) chord_name.
Proof.
  unfold analyze_chord, Dict.contains. case_bool_decide as Hin; [done|].
  symmetry. by apply dict_get_None.
Qed.

Lemma analyze_chord_None chord_name :
  analyze_chord self chord_name = None ↔ chord_name ∉ list_all_chords self.
Proof. rewrite analyze_chord_get. apply dict_get_None. Qed.

End catalog.

(** X19.  A chord is analyzed exactly when [list_all_chords] lists its
    name, for every state of the catalog.  For a name that is not listed
    there is no failure: the analysis is [None], the positions and the notes
    are empty lists, and [visualize_chord] prints the one line that says
    so, whatever position was asked for. *)
Theorem unknown_chord self chord_name position :
  (chord_name ∈ list_all_chords self
   ↔ is_Some (analyze_chord self chord_name)) ∧
  (chord_name ∉ list_all_chords self →
   analyze_chord self chord_name = None ∧
   get_chord_positions self chord_name = [] ∧
   get_chord_notes self chord_name = [] ∧
   visualize_chord self chord_name position
   = ["Chord '" +:+ chord_name +:+ "' not found in database."]).
Proof.
  split.
  - rewrite <-not_eq_None_Some, analyze_chord_None.
    destruct (decide (chord_name ∈ list_all_chords self)); tauto.
  - intros Hnot%analyze_chord_None.
    unfold get_chord_positions, get_chord_notes, visualize_chord.
    by rewrite Hnot.
Qed.

Lemma unknown_chord_witness :
  analyze_chord __init__ "H" = None ∧
  get_chord_positions __init__ "H" = [] ∧
  get_chord_notes __init__ "H" = [] ∧
  visualize_chord __init__ "H" (Some "x32010")
  = ["Chord 'H' not found in database."].
Proof.
  apply (proj2 (unknown_chord __init__ "H" (Some "x32010"))).
  apply (bool_decide_unpack _). by vm_compute.
Defined.

(** X20.  Whatever name is asked of the catalog as it is loaded, the notes
    are no notes at all or three distinct names of [NOTE_ORDER], and the
    positions are none or two texts, each with one character per string of
    the tuning, a decimal digit or the lowercase letter x. *)
Theorem catalog_well_formed chord_name :
  (get_chord_notes __init__ chord_name = [] ∨
   (length (get_chord_notes __init__ chord_name) = 3%nat ∧
    NoDup (get_chord_notes __init__ chord_name) ∧
    Forall (λ pc, pc ∈ NOTE_ORDER) (get_chord_notes __init__ chord_name))) ∧
  (get_chord_positions __init__ chord_name = [] ∨
   length (get_chord_positions __init__ chord_name) = 2%nat) ∧
  Forall (λ p, String.length p = length STRINGS ∧
               Forall (λ c, c = "x"%char ∨ is_Some (Py.digit_value c))
                      (String.list_ascii_of_string p))
         (get_chord_positions __init__ chord_name).
Proof.
  unfold get_chord_notes, get_chord_positions.
  destruct (analyze_chord __init__ chord_name) as [info|] eqn:Hinfo;
    [|by split_and!; [left|left|constructor]].
  rewrite analyze_chord_get in Hinfo. apply dict_get_Some in Hinfo.
  assert (Forall (λ kv : string * chord_info,
            (length (info_notes kv.2) = 3%nat ∧ NoDup (info_notes kv.2)
             ∧ Forall (λ pc, pc ∈ NOTE_ORDER) (info_notes kv.2)) ∧
            length (info_positions kv.2) = 2%nat ∧
            Forall (λ p, String.length p = length STRINGS ∧
                         Forall (λ c, c = "x"%char
                                      ∨ is_Some (Py.digit_value c))
                                (String.list_ascii_of_string p))
                   (info_positions kv.2))
            (chord_database __init__)) as Hall.
  { apply (bool_decide_unpack _). by vm_compute. }
  rewrite Forall_forall in Hall.
  destruct (Hall _ Hinfo) as (Hnotes & Hlen & Hpos). cbn [snd] in *.
  split_and!; [by right|by right|done].
Qed.

(** X21.  The positions of the catalog are written with the lowercase
    letter x, which the voicing analyzer does not read: for every name,
    [get_chord_notes_from_voicing] applied to a position that the catalog
    gives for it raises exactly when the position has a muted string, and
    returns the notes of the other positions. *)
Theorem catalog_positions_analyzed chord_name p :
  p ∈ get_chord_positions __init__ chord_name →
  raises (get_chord_notes_from_voicing (Py.chars p))
  ↔ "x"%char ∈ String.list_ascii_of_string p.
Proof.
  unfold get_chord_positions.
  destruct (analyze_chord __init__ chord_name) as [info|] eqn:Hinfo;
    [|by intros ?%elem_of_nil].
  rewrite analyze_chord_get in Hinfo. apply dict_get_Some in Hinfo.
  assert (Forall (λ kv : string * chord_info,
            Forall (λ p, Is_true
              match get_chord_notes_from_voicing (Py.chars p) with
              | Ok _ => bool_decide ("x"%char ∉ String.list_ascii_of_string p)
              | Raise _ => bool_decide ("x"%char ∈ String.list_ascii_of_string p)
              end) (info_positions kv.2))
            (chord_database __init__)) as Hall.
  { apply (bool_decide_unpack _). by vm_compute. }
  rewrite Forall_forall in Hall. specialize (Hall _ Hinfo). cbn [snd] in Hall.
  rewrite Forall_forall in Hall. intros Hp. specialize (Hall _ Hp).
  destruct (get_chord_notes_from_voicing (Py.chars p)) as [notes|e];
    apply bool_decide_unpack in Hall.
  - split; [by intros [e [=]]|done].
  - split; [done|]. intros _. by exists e.
Qed.

Lemma catalog_positions_analyzed_witness :
  raises (get_chord_notes_from_voicing (Py.chars "x32010"))
  ↔ "x"%char ∈ String.list_ascii_of_string "x32010".
Proof.
  apply (catalog_positions_analyzed "C" "x32010").
  apply (bool_decide_unpack _). by vm_compute.
Defined.

(** X22.  What [visualize_chord] prints for a position.  The line of the
    finger position is printed, after the three lines of the chord, exactly
    when the position is a non-empty text that [get_chord_positions] gives
    for the chord; any other position, [None] and the empty text included,
    is ignored without a message, and so is every position of an unknown
    chord. *)
Theorem visualize_chord_position self chord_name pos :
  visualize_chord self chord_name (Some pos)
  = visualize_chord self chord_name None
    ++ (if decide (pos ≠ EmptyString
                   ∧ pos ∈ get_chord_positions self chord_name)
        then [nl +:+ "Finger position: " +:+ pos] else []) ∧
  (length (visualize_chord self chord_name None)
   = match analyze_chord self chord_name with
     | Some _ => 3%nat
     | None => 1%nat
     end).
Proof.
  unfold visualize_chord, get_chord_positions.
  destruct (analyze_chord self chord_name) as [info|].
  - split; [|done]. rewrite app_nil_r. f_equal.
    destruct pos as [|c pos]; cbn [Py.truthy andb].
    + by rewrite decide_False by (by intros [? _]).
    + case_bool_decide; [by rewrite decide_True|].
      by rewrite decide_False by (by intros [_ ?]).
  - split; [|done]. rewrite decide_False; [done|].
    by intros [_ ?%elem_of_nil].
Qed.
